(** * Content production pipeline: chapter extraction, sentence segmentation,
      translation

    A shallow embedding of three stages of the pipeline:

    - [Extractor]  : [4-chapter_subbook_extraction.py]
    - [Parser]     : [5-spacy_sentence_parser.py]
    - [Translator] : [7-translator.py]

    Python [str] values are [string]s; the character classes ([str.isspace],
    [\s], [\d]) and the case mappings ([str.lower], [str.capitalize], case
    folding) are those of Python on the ASCII range.  Python maps the case
    of letters outside that range as well, which the model does not: a
    statement that depends on the case mapping is made for ASCII text
    ([Py.isascii]).  Python [int]s are [Z].  The sentence detector (spaCy), the identifier
    source ([uuid.uuid4]) and the translation service are parameters. *)

From Stdlib Require Import ZArith Lia Ascii.
From stdpp Require Import list strings pretty.

Open Scope Z_scope.

(** ** The Python built-ins the scripts use *)

Module Py.

(** [str.isspace] on one character: tab, the line breaks, the separators
    FS, GS, RS, US and the space. *)
Definition isspace (c : ascii) : bool :=
  match c with
  | "009" | "010" | "011" | "012" | "013"
  | "028" | "029" | "030" | "031" | " " => true
  | _ => false
  end%char.

Definition isdigit (c : ascii) : bool :=
  let n := N_of_ascii c in ((48 <=? n) && (n <=? 57))%N.

(** [str.isascii]: every character is below 128. *)
Definition isascii_char (c : ascii) : bool := (N_of_ascii c <? 128)%N.

Fixpoint isascii (s : string) : bool :=
  match s with
  | String c s' => isascii_char c && isascii s'
  | EmptyString => true
  end.

(** The case mappings of one character, as [str.lower] and [str.upper] map
    the characters of the ASCII range: the letters A to Z and a to z. *)
Definition lower_char (c : ascii) : ascii :=
  let n := N_of_ascii c in
  if ((65 <=? n) && (n <=? 90))%N then ascii_of_N (n + 32) else c.

Definition upper_char (c : ascii) : ascii :=
  let n := N_of_ascii c in
  if ((97 <=? n) && (n <=? 122))%N then ascii_of_N (n - 32) else c.

(** [str.lower] of an ASCII string ([isascii]).  On other text Python
    lower-cases the letters outside the ASCII range too, which this
    function leaves alone. *)
Fixpoint lower (s : string) : string :=
  match s with
  | String c s' => String (lower_char c) (lower s')
  | EmptyString => EmptyString
  end.

(** [str.capitalize] of an ASCII string ([isascii]): first character
    upper-cased, the rest lower-cased.  On other text Python title-cases a
    first letter outside the ASCII range too, which this function leaves
    alone. *)
Definition capitalize (s : string) : string :=
  match s with
  | String c s' => String (upper_char c) (lower s')
  | EmptyString => EmptyString
  end.

(** Truth value of a string: [not s] is [negb (truthy s)]. *)
Definition truthy (s : string) : bool :=
  match s with EmptyString => false | String _ _ => true end.

Fixpoint lstrip (s : string) : string :=
  match s with
  | String c s' => if isspace c then lstrip s' else s
  | EmptyString => EmptyString
  end.

Fixpoint rstrip (s : string) : string :=
  match s with
  | String c s' =>
      match rstrip s' with
      | EmptyString => if isspace c then EmptyString else String c EmptyString
      | r => String c r
      end
  | EmptyString => EmptyString
  end.

Definition strip (s : string) : string := rstrip (lstrip s).

(** [sep.join(parts)] *)
Fixpoint join (sep : string) (parts : list string) : string :=
  match parts with
  | [] => ""
  | [p] => p
  | p :: rest => p +:+ sep +:+ join sep rest
  end.

Definition snoc (s : string) (c : ascii) : string := s +:+ String c "".

(** [s.split()]: the maximal runs of non-space characters. *)
Fixpoint split_go (word : string) (s : string) : list string :=
  match s with
  | EmptyString => if truthy word then [word] else []
  | String c s' =>
      if isspace c
      then (if truthy word then word :: split_go "" s' else split_go "" s')
      else split_go (snoc word c) s'
  end.

Definition split (s : string) : list string := split_go "" s.

(** The line boundaries of [str.splitlines] in the ASCII range:
    LF, VT, FF, CR (and CR LF as one), FS, GS, RS. *)
Definition islinebreak (c : ascii) : bool :=
  match c with
  | "010" | "011" | "012" | "013" | "028" | "029" | "030" => true
  | _ => false
  end%char.

Fixpoint splitlines_go (cur : string) (s : string) : list string :=
  match s with
  | EmptyString => if truthy cur then [cur] else []
  | String c s' =>
      if (c =? "013")%char then
        match s' with
        | String "010"%char s'' => cur :: splitlines_go "" s''
        | _ => cur :: splitlines_go "" s'
        end
      else if islinebreak c then cur :: splitlines_go "" s'
      else splitlines_go (snoc cur c) s'
  end.

Definition splitlines (s : string) : list string := splitlines_go "" s.

(** [f.readlines()] on a text already in universal-newline form: the lines
    keep their terminating LF. *)
Fixpoint readlines_go (cur : string) (s : string) : list string :=
  match s with
  | EmptyString => if truthy cur then [cur] else []
  | String c s' =>
      if (c =? "010")%char then snoc cur c :: readlines_go "" s'
      else readlines_go (snoc cur c) s'
  end.

Definition readlines (s : string) : list string := readlines_go "" s.

(** *** Regular expressions

    Each pattern of the scripts is written out as the backtracking matcher
    [re] runs for it. *)

(** A literal prefix under [re.IGNORECASE]; the rest of the subject. *)
Fixpoint literal_ci (p s : string) : option string :=
  match p, s with
  | EmptyString, _ => Some s
  | String a p', String b s' =>
      if (lower_char a =? lower_char b)%char then literal_ci p' s' else None
  | String _ _, EmptyString => None
  end.

(** A literal prefix, case-sensitive. *)
Fixpoint literal (p s : string) : option string :=
  match p, s with
  | EmptyString, _ => Some s
  | String a p', String b s' =>
      if (a =? b)%char then literal p' s' else None
  | String _ _, EmptyString => None
  end.

(** Greedy [\s*] followed by the continuation [k]: the longest run is tried
    first, then shorter ones. *)
Fixpoint ws_star {A} (k : string -> option A) (s : string) : option A :=
  match s with
  | String c s' =>
      if isspace c then
        match ws_star k s' with
        | Some r => Some r
        | None => k s
        end
      else k s
  | EmptyString => k s
  end.

(** The tail [\s*-->] of a marker. *)
Definition marker_close (s : string) : option unit :=
  ws_star (fun t => match literal "-->" t with Some _ => Some tt | None => None end) s.

(** Lazy [.*?] followed by [\s*-->]: the shortest run of non-LF characters
    after which the marker closes.  Returns the run. *)
Fixpoint lazy_dots (s : string) : option string :=
  match marker_close s with
  | Some _ => Some ""
  | None =>
      match s with
      | String c s' =>
          if (c =? "010")%char then None else String c <$> lazy_dots s'
      | EmptyString => None
      end
  end.

(** The group [(.+?)] followed by [\s*-->]. *)
Definition lazy_group (s : string) : option string :=
  match s with
  | String c s' =>
      if (c =? "010")%char then None else String c <$> lazy_dots s'
  | EmptyString => None
  end.

(** [re.match(r'<!--\s*KW:\s*(.+?)\s*-->', line, re.IGNORECASE)]:
    group 1 when the line matches. *)
Definition marker_match (kw : string) (line : string) : option string :=
  literal_ci "<!--" line ≫= ws_star (fun s1 =>
  literal_ci (kw +:+ ":") s1 ≫= ws_star lazy_group).

(** Length of the match of [\s*\n] (greedy, with backtracking) at the start
    of [s]. *)
Fixpoint gap_length (s : string) : option nat :=
  match s with
  | String c s' =>
      if isspace c then
        match gap_length s' with
        | Some n => Some (S n)
        | None => if (c =? "010")%char then Some 1%nat else None
        end
      else None
  | EmptyString => None
  end.

(** [re.split(r'\n\s*\n', s)]; [skip] counts the characters of the current
    match still to be dropped. *)
Fixpoint re_split_go (skip : nat) (cur : string) (s : string) : list string :=
  match s with
  | EmptyString => [cur]
  | String c s' =>
      match skip with
      | S k => re_split_go k cur s'
      | O =>
          if (c =? "010")%char then
            match gap_length s' with
            | Some n => cur :: re_split_go n "" s'
            | None => re_split_go 0 (snoc cur c) s'
            end
          else re_split_go 0 (snoc cur c) s'
      end
  end.

Definition re_split_blank (s : string) : list string := re_split_go 0 "" s.

(** [$]: at the end of the subject, or before a final LF. *)
Definition at_end (s : string) : bool :=
  match s with
  | EmptyString => true
  | String "010"%char EmptyString => true
  | _ => false
  end.

(** The longest run of digits at the start of [s], and the rest. *)
Fixpoint span_digits (s : string) : string * string :=
  match s with
  | String c s' =>
      if isdigit c then let '(d, r) := span_digits s' in (String c d, r)
      else ("", s)
  | EmptyString => ("", "")
  end.

(** [int(digits)] *)
Definition int_go (acc : Z) (c : ascii) : Z :=
  10 * acc + (Z.of_N (N_of_ascii c) - 48).

Fixpoint int_of (acc : Z) (s : string) : Z :=
  match s with
  | String c s' => int_of (int_go acc c) s'
  | EmptyString => acc
  end.

Definition int (s : string) : Z := int_of 0 s.

Fixpoint endswith (suffix s : string) : bool :=
  String.eqb s suffix ||
  match s with
  | String _ s' => endswith suffix s'
  | EmptyString => false
  end.

(** [fnmatch(name, "chapter*.txt")] *)
Definition glob_chapter_txt (name : string) : bool :=
  match literal "chapter" name with
  | Some r => endswith ".txt" r
  | None => false
  end.

(** [str(n)] *)
Definition str (n : Z) : string := pretty n.

Fixpoint zeros (n : nat) : string :=
  match n with O => "" | S k => String "0" (zeros k) end.

Definition zfill (width : nat) (s : string) : string :=
  zeros (width - String.length s) +:+ s.

(** [f"{n:07d}"]: zero padding to seven characters, the sign first. *)
Definition format_07d (n : Z) : string :=
  if n <? 0 then "-" +:+ zfill 6 (str (- n)) else zfill 7 (str n).

(** Whether the last character of [s] is LF. *)
Fixpoint ends_lf (s : string) : bool :=
  match s with
  | EmptyString => false
  | String c EmptyString => (c =? "010")%char
  | String _ s' => ends_lf s'
  end.

(** A string of decimal digits. *)
Fixpoint all_digits (s : string) : bool :=
  match s with
  | String c s' => isdigit c && all_digits s'
  | EmptyString => true
  end.

(** A string without a white-space character. *)
Fixpoint no_space (s : string) : bool :=
  match s with
  | String c s' => negb (isspace c) && no_space s'
  | EmptyString => true
  end.

(** A word: not empty, and without white space. *)
Definition word_ok (w : string) : Prop := truthy w = true /\ no_space w = true.

End Py.

(** ** The content records (the chapter JSON) *)

Record sentence_dict := {
  sentenceID : string;
  sentenceIndex : Z;
  globalSentenceIndex : Z;
  reference : string;
  text : string;
  audioFile : string
}.

Record paragraph_dict := {
  paragraphID : string;
  paragraphIndex : Z;
  sentences : list sentence_dict
}.

Record chapter_dict := {
  chapterID : string;
  language : string;
  chapterNumber : Z;
  chapterTitle : string;
  paragraphs : list paragraph_dict
}.

(** All sentence records of a chapter, in the order of the JSON. *)
Definition chapter_sentences (c : chapter_dict) : list sentence_dict :=
  concat (map sentences (paragraphs c)).

(** ** Sentence segmentation: [5-spacy_sentence_parser.py] *)

Module Parser.
Import Py.

Definition exceptions : list string :=
  ["of"; "and"; "the"; "in"; "on"; "at"; "to"; "for"; "with"; "a"; "an"].

Fixpoint title_words (i : Z) (words : list string) : list string :=
  match words with
  | [] => []
  | word :: rest =>
      (if negb (bool_decide (lower word ∈ exceptions)) || (i =? 0)
       then capitalize word else lower word) :: title_words (i + 1) rest
  end.

Definition title_case (text : string) : string :=
  join " " (title_words 0 (split text)).

Definition create_audio_filename
    (sequential_index : Z) (book_code : string)
    (subbook_num chapter_num paragraph_num sentence_num : Z)
    (language : string) : string :=
  format_07d sequential_index +:+ "_" +:+ book_code +:+
  "_S" +:+ str subbook_num +:+ "_C" +:+ str chapter_num +:+
  "_P" +:+ str paragraph_num +:+ "_S" +:+ str sentence_num +:+
  "_" +:+ language +:+ ".aac".

Definition parse_paragraphs (text : string) : list string :=
  filter (fun p => truthy p) (map strip (re_split_blank (strip text))).

(** [re.match(r'<!--\s*REF:\s*(.+?)\s*-->', line, re.IGNORECASE)] *)
Definition ref_match (line : string) : option string :=
  marker_match "REF" line.

(** [re.search(r'chapter(\d+)\.txt$', name, re.IGNORECASE)], group 1 as an
    [int]; the greedy digits never give a digit back, since a dot must
    follow them. *)
Definition chapter_txt_here (s : string) : option Z :=
  r ← literal_ci "chapter" s;
  let '(d, rest) := span_digits r in
  if truthy d then
    e ← literal_ci ".txt" rest;
    if at_end e then Some (int d) else None
  else None.

Fixpoint chapter_num_search (s : string) : option Z :=
  match chapter_txt_here s with
  | Some n => Some n
  | None =>
      match s with
      | String _ s' => chapter_num_search s'
      | EmptyString => None
      end
  end.

Definition chapter_number_of (file_name : string) : Z :=
  default 0 (chapter_num_search file_name).

(** The state of one book run: the mutable counter
    [global_counter["value"]] and the number of identifiers drawn so far
    from [uuid.uuid4]. *)
Record run_state := {
  counter_value : Z;
  uuids_drawn : nat
}.

Definition draw (st : run_state) : run_state :=
  {| counter_value := counter_value st; uuids_drawn := S (uuids_drawn st) |}.

Definition increment (st : run_state) : run_state :=
  {| counter_value := counter_value st + 1; uuids_drawn := uuids_drawn st |}.

Section Engine.

(** [nlp_sents line] is [[sent.text for sent in nlp(line).sents]]. *)
Variable nlp_sents : string -> list string.
(** [uuid4 k] is the string of the [k]-th identifier drawn in the run. *)
Variable uuid4 : nat -> string.

Definition parse_sentences (line : string) : list string :=
  let sentences := filter (fun t => truthy t) (map strip (nlp_sents line)) in
  match sentences with
  | [] => [strip line]
  | _ => sentences
  end.

(** The loop over [enumerate(sentence_texts, start=1)]; [acc] is
    [paragraph_dict["sentences"]]. *)
Fixpoint sentence_loop
    (language book_code : string) (subbook_num chapter_number para_index : Z)
    (current_reference : string) (local_idx : Z)
    (sentence_texts : list string)
    (acc : list sentence_dict) (st : run_state)
    : list sentence_dict * run_state :=
  match sentence_texts with
  | [] => (acc, st)
  | sent :: rest =>
      let sentence_id := uuid4 (uuids_drawn st) in
      let st1 := draw st in
      let audio_filename :=
        create_audio_filename (counter_value st1) book_code subbook_num
          chapter_number para_index local_idx language in
      let sentence_text := strip sent in
      let sentence := {|
        sentenceID := sentence_id;
        sentenceIndex := local_idx;
        globalSentenceIndex := counter_value st1;
        reference := current_reference;
        text := sentence_text;
        audioFile := audio_filename |} in
      sentence_loop language book_code subbook_num chapter_number para_index
        current_reference (local_idx + 1) rest
        (acc ++ [sentence]) (increment st1)
  end.

(** The loop over the lines of one paragraph. *)
Fixpoint line_loop
    (language book_code : string) (subbook_num chapter_number para_index : Z)
    (para_lines : list string) (current_reference : string)
    (acc : list sentence_dict) (st : run_state)
    : string * list sentence_dict * run_state :=
  match para_lines with
  | [] => (current_reference, acc, st)
  | raw :: rest =>
      let line := strip raw in
      if negb (truthy line) then
        line_loop language book_code subbook_num chapter_number para_index
          rest current_reference acc st
      else
        match ref_match line with
        | Some group1 =>
            line_loop language book_code subbook_num chapter_number para_index
              rest (strip group1) acc st
        | None =>
            let '(acc', st') :=
              sentence_loop language book_code subbook_num chapter_number
                para_index current_reference 1 (parse_sentences line) acc st in
            line_loop language book_code subbook_num chapter_number para_index
              rest current_reference acc' st'
        end
  end.

(** [paragraph_dict["sentences"] and chapter_dict["paragraphs"].append(...)] *)
Definition append_if_sentences
    (paragraphs : list paragraph_dict) (paragraph : paragraph_dict)
    : list paragraph_dict :=
  match sentences paragraph with
  | [] => paragraphs
  | _ :: _ => paragraphs ++ [paragraph]
  end.

(** The loop over [enumerate(paragraphs_text, start=1)]; [acc] is
    [chapter_dict["paragraphs"]]. *)
Fixpoint paragraph_loop
    (language book_code : string) (subbook_num chapter_number : Z)
    (para_index : Z) (paragraphs_text : list string)
    (current_reference : string)
    (acc : list paragraph_dict) (st : run_state)
    : list paragraph_dict * run_state :=
  match paragraphs_text with
  | [] => (acc, st)
  | para_text :: rest =>
      let paragraph_id := uuid4 (uuids_drawn st) in
      let st1 := draw st in
      let '(current_reference', sents, st2) :=
        line_loop language book_code subbook_num chapter_number para_index
          (splitlines para_text) current_reference [] st1 in
      let paragraph := {|
        paragraphID := paragraph_id;
        paragraphIndex := para_index;
        sentences := sents |} in
      paragraph_loop language book_code subbook_num chapter_number
        (para_index + 1) rest current_reference'
        (append_if_sentences acc paragraph) st2
  end.

(** The title line and the paragraph blocks of a chapter text. *)
Definition chapter_title_of (lines : list string) : string :=
  match lines with
  | first :: _ => strip first
  | [] => ""
  end.

Definition paragraphs_text_of (lines : list string) : list string :=
  parse_paragraphs (strip (join "" (tail lines))).

(** [process_chapter_file]: [file_name] is [chapter_file.name] and
    [contents] the text read from the file, [None] when opening, reading or
    decoding it raises. *)
Definition process_chapter_file
    (file_name : string) (contents : option string)
    (language book_code : string) (subbook_num : Z) (st : run_state)
    : option chapter_dict * run_state :=
  match contents with
  | None => (None, st)
  | Some data =>
      let lines := readlines data in
      match lines with
      | [] => (None, st)
      | _ :: _ =>
          let formatted_title := title_case (chapter_title_of lines) in
          let paragraphs_text := paragraphs_text_of lines in
          let chapter_number := chapter_number_of file_name in
          let chapter_id := uuid4 (uuids_drawn st) in
          let st1 := draw st in
          let '(paras, st2) :=
            paragraph_loop language book_code subbook_num chapter_number
              1 paragraphs_text "" [] st1 in
          (Some {|
             chapterID := chapter_id;
             language := language;
             chapterNumber := chapter_number;
             chapterTitle := formatted_title;
             paragraphs := paras |}, st2)
      end
  end.

End Engine.

(** *** The book run *)

(** A file below the input directory: its path relative to the directory,
    and its text. *)
Record chapter_file := {
  parts : list string;
  contents : option string
}.

Definition name (f : chapter_file) : string := List.last (parts f) "".

(** The input directory: the names of its immediate sub-directories, and
    the files below it in the order the traversal yields them. *)
Record input_dir := {
  dirs : list string;
  files : list chapter_file
}.

(** Order of [pathlib] paths below one directory: the lists of path parts,
    compared as Python compares lists of strings. *)
Fixpoint parts_compare (a b : list string) : comparison :=
  match a, b with
  | [], [] => Eq
  | [], _ :: _ => Lt
  | _ :: _, [] => Gt
  | x :: a', y :: b' =>
      match String.compare x y with
      | Eq => parts_compare a' b'
      | c => c
      end
  end.

Definition path_lt (f g : chapter_file) : bool :=
  match parts_compare (parts f) (parts g) with Lt => true | _ => false end.

Fixpoint insert_sorted (f : chapter_file) (l : list chapter_file)
    : list chapter_file :=
  match l with
  | [] => [f]
  | g :: rest => if path_lt g f then g :: insert_sorted f rest else f :: g :: rest
  end.

(** [sorted(paths)], a stable sort. *)
Definition sorted (l : list chapter_file) : list chapter_file :=
  foldr insert_sorted [] l.

(** [base_input_dir.rglob("chapter*.txt")] *)
Definition rglob_chapters (d : input_dir) : list chapter_file :=
  filter (fun f => glob_chapter_txt (name f)) (files d).

(** [re.match(r'^\d+-', name)] *)
Definition numbered_prefix (s : string) : bool :=
  let '(d, r) := span_digits s in
  truthy d && bool_decide (is_Some (literal "-" r)).

(** The longest run of characters other than LF, and the rest. *)
Fixpoint span_line (s : string) : string * string :=
  match s with
  | String c s' =>
      if (c =? "010")%char then ("", s)
      else let '(x, r) := span_line s' in (String c x, r)
  | EmptyString => ("", "")
  end.

(** [re.match(r'^(\d+)-(.+)$', folder)], group 1 as an [int]. *)
Definition subbook_folder_match (folder : string) : option Z :=
  let '(d, r) := span_digits folder in
  if truthy d then
    t ← literal "-" r;
    let '(x, e) := span_line t in
    if truthy x && at_end e then Some (int d) else None
  else None.

Definition get_subbook_info (f : chapter_file) : string * Z :=
  match parts f with
  | subbook_folder :: _ :: _ =>
      match subbook_folder_match subbook_folder with
      | Some subbook_num => (subbook_folder, subbook_num)
      | None => ("1-Default", 1)
      end
  | _ => ("1-Default", 1)
  end.

(** A record handed to [json.dump]: the path of the output file below
    [base_output_dir], and the chapter record. *)
Definition saved := (list string * chapter_dict)%type.

Section Run.

Variable nlp_sents : string -> list string.
Variable uuid4 : nat -> string.

(** The loop of [process_all_chapter_files] over the sorted chapter files;
    [out] collects what is saved. *)
Fixpoint chapter_files_loop
    (use_default_subbook : bool) (language book_code : string)
    (chapter_files : list chapter_file)
    (out : list saved) (st : run_state) : list saved * run_state :=
  match chapter_files with
  | [] => (out, st)
  | chapter_file :: rest =>
      let '(subbook_folder, subbook_num) :=
        if use_default_subbook then ("1-Default", 1)
        else get_subbook_info chapter_file in
      let chapter_number := chapter_number_of (name chapter_file) in
      let output_subdir :=
        [language; "Content"; subbook_folder;
         "Chapter" +:+ str chapter_number] in
      match process_chapter_file nlp_sents uuid4 (name chapter_file)
              (contents chapter_file) language book_code subbook_num st with
      | (None, st') =>
          chapter_files_loop use_default_subbook language book_code rest out st'
      | (Some chapter_data, st') =>
          let output_filename :=
            book_code +:+ "_S" +:+ str subbook_num +:+
            "_C" +:+ str chapter_number +:+ "_" +:+ language +:+ ".json" in
          chapter_files_loop use_default_subbook language book_code rest
            (out ++ [(output_subdir ++ [output_filename], chapter_data)]) st'
      end
  end.

Definition initial_state : run_state :=
  {| counter_value := 1; uuids_drawn := 0 |}.

Definition process_all_chapter_files
    (base_input_dir : input_dir) (language book_code : string)
    : list saved * run_state :=
  let subbook_folders := filter (fun d => numbered_prefix d) (dirs base_input_dir) in
  let use_default_subbook :=
    match subbook_folders with [] => true | _ :: _ => false end in
  let chapter_files := sorted (rglob_chapters base_input_dir) in
  chapter_files_loop use_default_subbook language book_code chapter_files
    [] initial_state.

End Run.

(** The sentence records of a run, in the order they were saved. *)
Definition run_sentences (out : list saved) : list sentence_dict :=
  concat (map (fun r => chapter_sentences (snd r)) out).

(** *** Notions the statements about the engine use *)

(** The lines of a chapter text in the order they are scanned: the lines of
    the first paragraph block, then those of the second, and so on. *)
Definition scanned_lines (data : string) : list string :=
  concat (map splitlines (paragraphs_text_of (readlines data))).

(** The reference a line sets when it is a reference marker. *)
Definition marker_of (raw : string) : option string :=
  let line := strip raw in
  if truthy line then strip <$> ref_match line else None.

(** A line that is handed to the sentence detector: neither blank nor a
    reference marker. *)
Definition sentence_line (raw : string) : bool :=
  let line := strip raw in
  truthy line && negb (bool_decide (is_Some (ref_match line))).

(** The reference in force after the lines [pre] of a chapter: that of the
    last marker among them, empty when there is none. *)
Definition reference_in_force (pre : list string) : string :=
  List.last (omap marker_of pre) "".

(** The reference and the text of every sentence record of a chapter. *)
Definition refs_texts (ss : list sentence_dict) : list (string * string) :=
  map (fun s => (reference s, text s)) ss.

(** A paragraph block without a sentence-bearing line. *)
Definition block_silent (block : string) : bool :=
  forallb (fun raw => negb (sentence_line raw)) (splitlines block).

(** The 1-based positions of the blocks that bear a sentence. *)
Definition sounding_positions (blocks : list string) : list Z :=
  map fst (filter (fun ib => negb (block_silent (snd ib)))
                  (zip (seqZ 1 (Z.of_nat (length blocks))) blocks)).

(** Every [audioFile] of the record is the file name derived from the
    coordinates of its own sentence. *)
Definition audio_consistent (book_code : string) (subbook_num : Z)
    (c : chapter_dict) : Prop :=
  Forall (fun p =>
    Forall (fun s =>
      audioFile s =
      create_audio_filename (globalSentenceIndex s) book_code subbook_num
        (chapterNumber c) (paragraphIndex p) (sentenceIndex s) (language c))
      (sentences p)) (paragraphs c).

Section Expected.

Variable nlp_sents : string -> list string.

(** What the scan of one line is to yield, given the lines [pre] before it
    in the chapter: nothing for a blank line or a marker, and otherwise one
    record per detected sentence, each with the reference in force. *)
Definition expected_of_line (pre : list string) (raw : string)
    : list (string * string) :=
  if sentence_line raw
  then map (fun t => (reference_in_force pre, strip t))
           (parse_sentences nlp_sents (strip raw))
  else [].

Fixpoint expected_from (pre lines : list string) : list (string * string) :=
  match lines with
  | [] => []
  | raw :: rest =>
      expected_of_line pre raw ++ expected_from (pre ++ [raw]) rest
  end.

(** The facts every result of the loop over the paragraph blocks has. *)
Definition paragraphs_ok (L B : string) (sn cn : Z) (idx : Z)
    (blocks pre : list string) (st : run_state)
    (r : list paragraph_dict * run_state) : Prop :=
  let ss := concat (map sentences r.1) in
  map globalSentenceIndex ss = seqZ (counter_value st) (Z.of_nat (length ss)) /\
  counter_value r.2 = counter_value st + Z.of_nat (length ss) /\
  refs_texts ss = expected_from pre (concat (map splitlines blocks)) /\
  Forall (fun p =>
    Forall (fun s => audioFile s =
              create_audio_filename (globalSentenceIndex s) B sn cn
                (paragraphIndex p) (sentenceIndex s) L) (sentences p)) r.1 /\
  Forall (fun p => sentences p <> []) r.1 /\
  map paragraphIndex r.1 =
    map fst (filter (fun ib => negb (block_silent (snd ib)))
                    (zip (seqZ idx (Z.of_nat (length blocks))) blocks)).

(** The [sentenceIndex] values the scan of one line is to yield: the local
    index restarts at 1 for every line handed to the detector. *)
Definition indices_of_line (raw : string) : list Z :=
  if sentence_line raw
  then seqZ 1 (Z.of_nat (length (parse_sentences nlp_sents (strip raw))))
  else [].

Definition indices_of_block (block : string) : list Z :=
  concat (map indices_of_line (splitlines block)).

End Expected.

(** The identifiers of a chapter record, in the order they are drawn. *)
Definition paragraph_ids (p : paragraph_dict) : list string :=
  paragraphID p :: map sentenceID (sentences p).

Definition chapter_ids (c : chapter_dict) : list string :=
  chapterID c :: concat (map paragraph_ids (paragraphs c)).

Definition run_ids (out : list saved) : list string :=
  concat (map (fun r => chapter_ids (snd r)) out).

(** Different draw numbers between [a], included, and [b], excluded. *)
Definition drawn_between (a b : nat) (ks : list nat) : Prop :=
  NoDup ks /\ Forall (fun k => (a <= k < b)%nat) ks.

(** A chapter file the engine makes a record of. *)
Definition readable (f : chapter_file) : bool :=
  match contents f with
  | Some data => truthy data
  | None => false
  end.

(** The name of the JSON file of a chapter. *)
Definition output_filename (book_code : string) (subbook_num chapter_number : Z)
    (language : string) : string :=
  book_code +:+ "_S" +:+ str subbook_num +:+
  "_C" +:+ str chapter_number +:+ "_" +:+ language +:+ ".json".

(** The subbook folder and number the loop uses for a chapter file, and
    the path of the JSON file it saves the record of the file to. *)
Definition subbook_of (use_default_subbook : bool) (f : chapter_file)
    : string * Z :=
  if use_default_subbook then ("1-Default", 1) else get_subbook_info f.

Definition output_path (use_default_subbook : bool)
    (language book_code : string) (f : chapter_file) : list string :=
  let chapter_number := chapter_number_of (name f) in
  [language; "Content"; (subbook_of use_default_subbook f).1;
   "Chapter" +:+ str chapter_number;
   output_filename book_code (subbook_of use_default_subbook f).2
     chapter_number language].

(** A character of a locator that is neither white space nor a dash. *)
Definition plain_char (c : ascii) : bool :=
  negb (isspace c) && negb (c =? "-")%char.

Fixpoint plain (s : string) : bool :=
  match s with
  | String c s' => plain_char c && plain s'
  | EmptyString => true
  end.

(** A string without a line feed. *)
Fixpoint one_line (s : string) : bool :=
  match s with
  | String c s' => negb (c =? "010")%char && one_line s'
  | EmptyString => true
  end.

End Parser.

(** ** Chapter extraction: [4-chapter_subbook_extraction.py] *)

Module Extractor.
Import Py.

Definition exceptions : list string :=
  ["of"; "and"; "the"; "in"; "on"; "at"; "to"; "for"; "with"; "a"; "an"].

Fixpoint title_words (i : Z) (words : list string) : list string :=
  match words with
  | [] => []
  | word :: rest =>
      (if negb (bool_decide (lower word ∈ exceptions)) || (i =? 0)
       then capitalize word else lower word) :: title_words (i + 1) rest
  end.

Definition title_case (text : string) : string :=
  join " " (title_words 0 (split text)).

(** The characters the substitution of [sanitize_filename] removes:
    backslash, slash, star, question mark, colon, double quote, the angle
    brackets and the bar. *)
Definition invalid_char (c : ascii) : bool :=
  match c with
  | "092" | "047" | "042" | "063" | "058" | "034" | "060" | "062" | "124" => true
  | _ => false
  end%char.

Fixpoint sanitize_filename (name : string) : string :=
  match name with
  | String c s => if invalid_char c then sanitize_filename s
                  else String c (sanitize_filename s)
  | EmptyString => EmptyString
  end.

(** A text file below the output directory: the directory (its path parts
    below [output_dir]), the file name and the text. *)
Record file := {
  file_dir : list string;
  file_name : string;
  file_text : string
}.

Definition same_path (dir : list string) (name : string) (f : file) : bool :=
  bool_decide (file_dir f = dir) && String.eqb (file_name f) name.

(** [open(path, "w")] and the writes: the file is created or replaced. *)
Definition write_file (fs : list file) (dir : list string) (name text : string)
    : list file :=
  filter (fun f => negb (same_path dir name f)) fs ++
  [{| file_dir := dir; file_name := name; file_text := text |}].

(** [len(list(chapter_dir.glob("chapter*.txt"))) + 1] *)
Definition get_chapter_number (fs : list file) (chapter_dir : list string) : Z :=
  Z.of_nat (length (filter (fun f => bool_decide (file_dir f = chapter_dir)
                                     && glob_chapter_txt (file_name f)) fs)) + 1.

(** A chapter text unit as [write_current_chapter] emits it. *)
Record chapter_unit := {
  unit_dir : list string;
  unit_file : string;
  unit_title : string;
  unit_lines : list string
}.

Definition LF : string := String "010" "".

Definition unit_text (u : chapter_unit) : string :=
  (title_case (unit_title u) +:+ LF +:+ LF) +:+
  (strip (join LF (unit_lines u)) +:+ LF).

(** The variables of [extract_chapters], the files below [output_dir], and
    the units written so far. *)
Record state := {
  current_subbook : option string;
  current_subbook_index : Z;
  current_chapter : option string;
  chapter_lines : list string;
  subbook_detected : bool;
  current_output_dir : list string;
  fs : list file;
  written : list chapter_unit
}.

Definition initial (fs0 : list file) : state := {|
  current_subbook := None;
  current_subbook_index := 0;
  current_chapter := None;
  chapter_lines := [];
  subbook_detected := false;
  current_output_dir := [];
  fs := fs0;
  written := []
|}.

(** [write_current_chapter(subbook_dir, chapter_title, chapter_lines)]:
    the files and the units after the call. *)
Definition write_current_chapter
    (files : list file) (units : list chapter_unit)
    (subbook_dir : list string) (chapter_title : string)
    (lines : list string) : list file * list chapter_unit :=
  if negb (truthy chapter_title) || bool_decide (lines = []) then (files, units)
  else
    let chapter_number := get_chapter_number files subbook_dir in
    let filename := "chapter" +:+ str chapter_number +:+ ".txt" in
    let u := {| unit_dir := subbook_dir; unit_file := filename;
                unit_title := chapter_title; unit_lines := lines |} in
    (write_file files subbook_dir filename (unit_text u), units ++ [u]).

(** [current_chapter is not None and chapter_lines] *)
Definition in_progress (st : state) : option string :=
  match current_chapter st, chapter_lines st with
  | Some title, _ :: _ => Some title
  | _, _ => None
  end.

Inductive line_kind :=
  | SubbookMarker (title : string)
  | ChapterMarker (title : string)
  | Body.

(** The two [re.match] tests on the stripped line, in the order of the
    loop body. *)
Definition classify (line : string) : line_kind :=
  let stripped_line := strip line in
  match marker_match "SUBBOOK" stripped_line with
  | Some group1 => SubbookMarker (strip group1)
  | None =>
      match marker_match "CHAPTER" stripped_line with
      | Some group1 => ChapterMarker (strip group1)
      | None => Body
      end
  end.

(** One iteration of the loop over the lines. *)
Definition step (st : state) (line : string) : state :=
  match classify line with
  | SubbookMarker subbook_title =>
      let '(files, units, lines, chapter) :=
        match in_progress st with
        | Some title =>
            let '(files, units) :=
              write_current_chapter (fs st) (written st)
                (current_output_dir st) title (chapter_lines st) in
            (files, units, [], None)
        | None => (fs st, written st, chapter_lines st, current_chapter st)
        end in
      let index := current_subbook_index st + 1 in
      let subbook_dir_name :=
        str index +:+ "-" +:+ sanitize_filename subbook_title in
      {| current_subbook := Some subbook_title;
         current_subbook_index := index;
         current_chapter := chapter;
         chapter_lines := lines;
         subbook_detected := true;
         current_output_dir := [subbook_dir_name];
         fs := files;
         written := units |}
  | ChapterMarker chapter_title =>
      let '(files, units, lines) :=
        match in_progress st with
        | Some title =>
            let '(files, units) :=
              write_current_chapter (fs st) (written st)
                (current_output_dir st) title (chapter_lines st) in
            (files, units, [])
        | None => (fs st, written st, chapter_lines st)
        end in
      {| current_subbook := current_subbook st;
         current_subbook_index := current_subbook_index st;
         current_chapter := Some chapter_title;
         chapter_lines := lines;
         subbook_detected := subbook_detected st;
         current_output_dir := current_output_dir st;
         fs := files;
         written := units |}
  | Body =>
      match current_chapter st with
      | Some _ =>
          {| current_subbook := current_subbook st;
             current_subbook_index := current_subbook_index st;
             current_chapter := current_chapter st;
             chapter_lines := chapter_lines st ++ [line];
             subbook_detected := subbook_detected st;
             current_output_dir := current_output_dir st;
             fs := fs st;
             written := written st |}
      | None => st
      end
  end.

(** The write after the loop. *)
Definition finish (st : state) : bool * list file * list chapter_unit :=
  match in_progress st with
  | Some title =>
      let '(files, units) :=
        write_current_chapter (fs st) (written st)
          (current_output_dir st) title (chapter_lines st) in
      (subbook_detected st, files, units)
  | None => (subbook_detected st, fs st, written st)
  end.

(** The loop and the final write, on the lines of the book text. *)
Definition extract_lines (lines : list string) (fs0 : list file)
    : bool * list file * list chapter_unit :=
  finish (foldl step (initial fs0) lines).

(** [extract_chapters(book_text, output_dir)]: the returned flag, the files
    below [output_dir] afterwards, and the units written, in order. *)
Definition extract_chapters (book_text : string) (fs0 : list file)
    : bool * list file * list chapter_unit :=
  extract_lines (splitlines book_text) fs0.


Definition is_chapter_marker (line : string) : bool :=
  match classify line with ChapterMarker _ => true | _ => false end.

Definition is_subbook_marker (line : string) : bool :=
  match classify line with SubbookMarker _ => true | _ => false end.

(** What is written has a title and at least one line, and its lines are
    body lines of the text. *)
Definition units_ok (lines : list string) (units : list chapter_unit) : Prop :=
  Forall (fun u => unit_lines u <> [] /\ unit_title u <> "" /\
            Forall (fun l => l ∈ lines /\ classify l = Body) (unit_lines u))
         units.

Definition state_ok (lines : list string) (st : state) : Prop :=
  Forall (fun l => l ∈ lines /\ classify l = Body) (chapter_lines st) /\
  units_ok lines (written st).

(** A name in which [sanitize_filename] finds nothing to remove. *)
Fixpoint valid_name (s : string) : bool :=
  match s with
  | String c s' => negb (invalid_char c) && valid_name s'
  | EmptyString => true
  end.

(** The file a unit is written to. *)
Definition file_of_unit (u : chapter_unit) : file :=
  {| file_dir := unit_dir u; file_name := unit_file u;
     file_text := unit_text u |}.

Definition chapter_file_name (n : Z) : string :=
  "chapter" +:+ str n +:+ ".txt".

(** The units written into the directory [dir]. *)
Definition units_in (dir : list string) (units : list chapter_unit)
    : list chapter_unit :=
  filter (fun u => unit_dir u = dir) units.

(** The units written so far are the files, one file per unit, and those
    of every directory are numbered from 1 in the order they were
    written. *)
Definition numbered (st : state) : Prop :=
  fs st = map file_of_unit (written st) /\
  forall dir,
    map unit_file (units_in dir (written st)) =
    map chapter_file_name
        (seqZ 1 (Z.of_nat (length (units_in dir (written st))))).

End Extractor.

(** ** Translation: [7-translator.py]

    The script loads a chapter record as a tree of mutable dictionaries and
    updates the dictionaries of a copy in place.  The dictionaries live in
    a store; a list inside a dictionary holds the addresses of its items.
    The text of a JSON document is the immutable record [chapter_dict]. *)

Module Translator.
Import Py.

Definition loc := nat.

Inductive object :=
  | SentenceObj (s : sentence_dict)
  | ParagraphObj (id : string) (index : Z) (sents : list loc)
  | ChapterObj (id lang : string) (number : Z) (title : string)
               (paras : list loc).

Abbreviation heap := (list object).

Definition alloc (o : object) (h : heap) : heap * loc := (h ++ [o], length h).

(** *** [json.loads]: a fresh dictionary for every object of the document *)

Fixpoint load_sentences (ss : list sentence_dict) (h : heap)
    : heap * list loc :=
  match ss with
  | [] => (h, [])
  | s :: rest =>
      let '(h1, l) := alloc (SentenceObj s) h in
      let '(h2, ls) := load_sentences rest h1 in
      (h2, l :: ls)
  end.

Definition load_paragraph (p : paragraph_dict) (h : heap) : heap * loc :=
  let '(h1, sents) := load_sentences (sentences p) h in
  alloc (ParagraphObj (paragraphID p) (paragraphIndex p) sents) h1.

Fixpoint load_paragraphs (ps : list paragraph_dict) (h : heap)
    : heap * list loc :=
  match ps with
  | [] => (h, [])
  | p :: rest =>
      let '(h1, l) := load_paragraph p h in
      let '(h2, ls) := load_paragraphs rest h1 in
      (h2, l :: ls)
  end.

Definition json_loads (c : chapter_dict) (h : heap) : heap * loc :=
  let '(h1, paras) := load_paragraphs (paragraphs c) h in
  alloc (ChapterObj (chapterID c) (language c) (chapterNumber c)
           (chapterTitle c) paras) h1.

(** *** [json.dumps]: the document of the tree at an address *)

Definition dump_sentence (h : heap) (l : loc) : option sentence_dict :=
  match h !! l with
  | Some (SentenceObj s) => Some s
  | _ => None
  end.

Definition dump_paragraph (h : heap) (l : loc) : option paragraph_dict :=
  match h !! l with
  | Some (ParagraphObj id index sents) =>
      ss ← mapM (dump_sentence h) sents;
      Some {| paragraphID := id; paragraphIndex := index; sentences := ss |}
  | _ => None
  end.

Definition json_dumps (h : heap) (l : loc) : option chapter_dict :=
  match h !! l with
  | Some (ChapterObj id lang number title paras) =>
      ps ← mapM (dump_paragraph h) paras;
      Some {| chapterID := id; language := lang; chapterNumber := number;
              chapterTitle := title; paragraphs := ps |}
  | _ => None
  end.

(** The dictionaries of the tree at an address. *)
Definition paragraph_locs (h : heap) (para : loc) : list loc :=
  match h !! para with
  | Some (ParagraphObj _ _ sents) => para :: sents
  | _ => [para]
  end.

Definition reachable (h : heap) (content : loc) : list loc :=
  match h !! content with
  | Some (ChapterObj _ _ _ _ paras) =>
      content :: concat (map (paragraph_locs h) paras)
  | _ => [content]
  end.

(** *** Assignments to the keys of a dictionary *)

Definition set_text (v : string) (s : sentence_dict) : sentence_dict :=
  {| sentenceID := sentenceID s; sentenceIndex := sentenceIndex s;
     globalSentenceIndex := globalSentenceIndex s; reference := reference s;
     text := v; audioFile := audioFile s |}.

Definition set_audioFile (v : string) (s : sentence_dict) : sentence_dict :=
  {| sentenceID := sentenceID s; sentenceIndex := sentenceIndex s;
     globalSentenceIndex := globalSentenceIndex s; reference := reference s;
     text := text s; audioFile := v |}.

(** [translated_content["language"] = target_language] *)
Definition set_language (h : heap) (content : loc) (v : string) : heap :=
  match h !! content with
  | Some (ChapterObj id _ number title paras) =>
      <[content := ChapterObj id v number title paras]> h
  | _ => h
  end.

(** *** The substitution of the language code

    [re.sub(pattern + "$", repl, s)] for a literal [pattern]: the leftmost
    occurrence of [pattern] that ends the subject, or ends it up to a final
    LF, is replaced.  [repl] is taken literally, as [re.sub] does for a
    template without a backslash. *)
Definition match_at_end (pat s : string) : option string :=
  match literal pat s with
  | Some e => if at_end e then Some e else None
  | None => None
  end.

Fixpoint re_sub_end (pat repl s : string) : string :=
  match match_at_end pat s with
  | Some e => repl +:+ e
  | None =>
      match s with
      | String c s' => String c (re_sub_end pat repl s')
      | EmptyString => EmptyString
      end
  end.

Fixpoint template_literal (t : string) : bool :=
  match t with
  | String c t' => negb (c =? "092")%char && template_literal t'
  | EmptyString => true
  end.

(** [re.sub(rf"_{re.escape(native)}\.aac$", f"_{target}.aac", audio_file)] *)
Definition update_audio (native_language_code target_language : string)
    (audio_file : string) : string :=
  re_sub_end ("_" +:+ native_language_code +:+ ".aac")
             ("_" +:+ target_language +:+ ".aac") audio_file.

(** A document with every sentence replaced by its image under [f]. *)
Definition map_paragraph (f : sentence_dict -> sentence_dict)
    (p : paragraph_dict) : paragraph_dict :=
  {| paragraphID := paragraphID p;
     paragraphIndex := paragraphIndex p;
     sentences := map f (sentences p) |}.

Definition map_document (f : sentence_dict -> sentence_dict)
    (c : chapter_dict) : chapter_dict :=
  {| chapterID := chapterID c;
     language := language c;
     chapterNumber := chapterNumber c;
     chapterTitle := chapterTitle c;
     paragraphs := map (map_paragraph f) (paragraphs c) |}.

Definition with_language (v : string) (c : chapter_dict) : chapter_dict :=
  {| chapterID := chapterID c;
     language := v;
     chapterNumber := chapterNumber c;
     chapterTitle := chapterTitle c;
     paragraphs := paragraphs c |}.

(** The sentence dictionary at [l] replaced, in place, by its image under
    [f]; nothing happens when [l] holds no sentence dictionary. *)
Definition update_sentence (f : sentence_dict -> sentence_dict)
    (h : heap) (l : loc) : heap :=
  match h !! l with
  | Some (SentenceObj s) => <[l := SentenceObj (f s)]> h
  | _ => h
  end.

Section Service.

(** [client system user]: the content of the reply of the chat completion
    to the two messages, [None] when the call raises. *)
Variable client : string -> string -> option string.
(** [language_map.get] *)
Variable language_map : string -> option string.

Definition translate_text (txt target_language : string) : string :=
  match client ("You are a translator. Translate the following text to "
                +:+ target_language +:+ ".") txt with
  | Some content => strip content
  | None => ""
  end.

(** What [process_sentence] leaves in a sentence dictionary whose ["text"]
    is a string.  The test [if not target_language_name] returns early for
    a code the map does not know and for an empty name alike. *)
Definition translate_sentence (native_language_code target_language : string)
    (s : sentence_dict) : sentence_dict :=
  let native_text := strip (text s) in
  if negb (truthy native_text) then s
  else
    match language_map target_language with
    | None => s
    | Some target_language_name =>
        if negb (truthy target_language_name) then s
        else
          let translation := translate_text native_text target_language_name in
          let s1 := set_text translation s in
          set_audioFile
            (update_audio native_language_code target_language (audioFile s1)) s1
    end.

(** [process_sentence(sentence, ...)]: the two assignments
    [sentence["text"] = ...] and [sentence["audioFile"] = ...], or the early
    [return]. *)
Definition process_sentence (h : heap) (sentence : loc)
    (native_language_code target_language : string) : heap :=
  match h !! sentence with
  | Some (SentenceObj s) =>
      let native_text := strip (text s) in
      if negb (truthy native_text) then h
      else
        match language_map target_language with
        | None => h
        | Some target_language_name =>
            if negb (truthy target_language_name) then h
            else
              let translation :=
                translate_text native_text target_language_name in
              let h1 := <[sentence := SentenceObj (set_text translation s)]> h in
              match h1 !! sentence with
              | Some (SentenceObj s1) =>
                  <[sentence := SentenceObj
                      (set_audioFile
                         (update_audio native_language_code target_language
                            (audioFile s1)) s1)]> h1
              | _ => h1
              end
        end
  | _ => h
  end.

(** The loop over [para["sentences"]], with body [visit]. *)
Definition visit_paragraph (visit : heap -> loc -> heap) (h : heap)
    (para : loc) : heap :=
  match h !! para with
  | Some (ParagraphObj _ _ sents) => foldl visit h sents
  | _ => h
  end.

(** The two nested loops over [content["paragraphs"]] and
    [para["sentences"]], with body [visit]. *)
Definition for_sentences (visit : heap -> loc -> heap) (h : heap)
    (content : loc) : heap :=
  match h !! content with
  | Some (ChapterObj _ _ _ _ paras) => foldl (visit_paragraph visit) h paras
  | _ => h
  end.

Definition translate_content (h : heap) (content : loc)
    (native_language_code target_language : string) : heap :=
  for_sentences
    (fun h sentence =>
       process_sentence h sentence native_language_code target_language)
    h content.

(** The body of the second loop of [process_json_file]:
    [sentence["audioFile"] = updated_audio]. *)
Definition rewrite_audio (native_language_code target_language : string)
    (h : heap) (sentence : loc) : heap :=
  match h !! sentence with
  | Some (SentenceObj s) =>
      <[sentence := SentenceObj
          (set_audioFile
             (update_audio native_language_code target_language (audioFile s))
             s)]> h
  | _ => h
  end.

(** A translated record: the target language, the address of the copy and
    the document handed to [json.dump]. *)
Record translated := {
  target : string;
  content : loc;
  dumped : chapter_dict
}.

(** The loop of [process_json_file] over the target languages; [None] when
    a record cannot be serialised. *)
Fixpoint targets_loop (native_content : loc) (native_language_code : string)
    (target_language_codes : list string)
    (out : list translated) (h : heap) : option (heap * list translated) :=
  match target_language_codes with
  | [] => Some (h, out)
  | target_language :: rest =>
      document ← json_dumps h native_content;
      let '(h1, translated_content) := json_loads document h in
      let h2 := set_language h1 translated_content target_language in
      let h3 := translate_content h2 translated_content
                  native_language_code target_language in
      let h4 := for_sentences
                  (rewrite_audio native_language_code target_language)
                  h3 translated_content in
      written ← json_dumps h4 translated_content;
      targets_loop native_content native_language_code rest
        (out ++ [{| target := target_language;
                    content := translated_content;
                    dumped := written |}]) h4
  end.

(** [process_json_file]: [file] is the document read from [json_file].
    The result is the store afterwards, the address of the native record
    and the translated records.  The names of the output files are not part
    of the model. *)
Definition process_json_file (file : chapter_dict)
    (native_language_code : string) (target_language_codes : list string)
    (h : heap) : option (heap * loc * list translated) :=
  let '(h0, native_content) := json_loads file h in
  r ← targets_loop native_content native_language_code
        target_language_codes [] h0;
  Some (r.1, native_content, r.2).

(** The sentence of the translated document that stems from the native
    sentence [s]: what the two loops leave of it. *)
Definition translated_sentence (native_language_code target_language : string)
    (s : sentence_dict) : sentence_dict :=
  let s1 := translate_sentence native_language_code target_language s in
  set_audioFile
    (update_audio native_language_code target_language (audioFile s1)) s1.

(** The translated document as a function of the native document. *)
Definition translated_document (native_language_code target_language : string)
    (c : chapter_dict) : chapter_dict :=
  map_document (translated_sentence native_language_code target_language)
    (with_language target_language c).

End Service.

(** *** The tree of a document in the store *)

Definition sentence_at (h : heap) (l : loc) (s : sentence_dict) : Prop :=
  h !! l = Some (SentenceObj s).

Definition paragraph_at (h : heap) (l : loc) (sents : list loc)
    (p : paragraph_dict) : Prop :=
  h !! l = Some (ParagraphObj (paragraphID p) (paragraphIndex p) sents) ∧
  Forall2 (sentence_at h) sents (sentences p).

(** The document [c] sits at [root], its paragraphs at [paras] and their
    sentences at [sentss], all at different addresses. *)
Definition chapter_at (h : heap) (root : loc) (paras : list loc)
    (sentss : list (list loc)) (c : chapter_dict) : Prop :=
  h !! root = Some (ChapterObj (chapterID c) (language c) (chapterNumber c)
                      (chapterTitle c) paras) ∧
  Forall3 (paragraph_at h) paras sentss (paragraphs c) ∧
  NoDup (root :: paras ++ concat sentss).

(** [s.split(",")]: the pieces between the commas, empty ones included. *)
Fixpoint split_comma_go (cur : string) (s : string) : list string :=
  match s with
  | EmptyString => [cur]
  | String c s' =>
      if (c =? ",")%char then cur :: split_comma_go "" s'
      else split_comma_go (snoc cur c) s'
  end.

Definition split_comma (s : string) : list string := split_comma_go "" s.

(** The target languages [main] passes on: the stripped, non-empty pieces
    of [--target_languages] other than the stripped [--native_language].
    [main] stops when the list is empty. *)
Definition target_language_codes_of (native_language target_languages : string)
    : list string :=
  let native_language_code := strip native_language in
  let codes := filter (fun lang => truthy lang)
                 (map strip (split_comma target_languages)) in
  filter (fun lang => lang <> native_language_code) codes.

(** The fields of a sentence and of a document that translation is to
    leave alone. *)
Definition sentence_identity (s : sentence_dict)
    : string * Z * Z * string :=
  (sentenceID s, sentenceIndex s, globalSentenceIndex s, reference s).

Definition document_identity (c : chapter_dict)
    : string * Z * string * list (string * Z * list (string * Z * Z * string)) :=
  (chapterID c, chapterNumber c, chapterTitle c,
   map (fun p => (paragraphID p, paragraphIndex p,
                  map sentence_identity (sentences p))) (paragraphs c)).

(** The addresses of a list lie between [a], included, and [b], excluded. *)
Definition within (a b : nat) (ls : list loc) : Prop :=
  Forall (fun l => (a <= l < b)%nat) ls.

(** The trees of the translated records share no dictionary. *)
Definition separate (h : heap) (out : list translated) : Prop :=
  forall i j t1 t2,
    out !! i = Some t1 -> out !! j = Some t2 -> i <> j ->
    forall x, x ∈ reachable h (content t1) -> x ∉ reachable h (content t2).

Section Invariant.

Variable client : string -> string -> option string.
Variable language_map : string -> option string.

(** A translated record of the loop: its tree sits in the store above
    [base], and its document is the translation of the native [file]. *)
Definition record_inv (h : heap) (base : nat) (file : chapter_dict)
    (native_language_code : string) (t : translated) : Prop :=
  exists paras sentss,
    chapter_at h (content t) paras sentss (dumped t) /\
    dumped t = translated_document client language_map native_language_code
                 (target t) file /\
    within base (length h) (content t :: paras ++ concat sentss).

End Invariant.

End Translator.

(** ** Sample inputs *)

Module Samples.
Import Py.

Definition LF : string := String "010" "".

(** A sentence detector that ends a sentence after every full stop. *)
Fixpoint stops_go (cur : string) (s : string) : list string :=
  match s with
  | EmptyString => if truthy cur then [cur] else []
  | String c s' =>
      if (c =? ".")%char then snoc cur c :: stops_go "" s'
      else stops_go (snoc cur c) s'
  end.

Definition nlp_sents (line : string) : list string := stops_go "" line.

Definition uuid4 (k : nat) : string := "id-" +:+ str (Z.of_nat k).

(** The two-paragraph chapter of the end-to-end scenario. *)
Definition two_paragraphs : string :=
  "the golden bird" +:+ LF +:+ LF +:+
  "Hello world. Second sentence." +:+ LF +:+ LF +:+ "Third one here." +:+ LF.

(** A chapter whose first block holds a reference marker only. *)
Definition marker_only_block : string :=
  "Title" +:+ LF +:+ LF +:+
  "<!-- REF: 1:1 -->" +:+ LF +:+ LF +:+ "Hello." +:+ LF.

(** Markers and sentences across paragraph boundaries. *)
Definition carried : string :=
  "Title" +:+ LF +:+ LF +:+
  "Before." +:+ LF +:+ "<!-- REF: 1:1 -->" +:+ LF +:+ "Sentence A." +:+ LF +:+ LF +:+
  "Sentence B." +:+ LF +:+ "<!-- REF: 1:2 -->" +:+ LF +:+ "Sentence C." +:+ LF.

Definition unmarked : string :=
  "Next" +:+ LF +:+ LF +:+ "Sentence D." +:+ LF.

Definition chapter (n : string) (body : string) : Parser.chapter_file :=
  {| Parser.parts := ["chapter" +:+ n +:+ ".txt"];
     Parser.contents := Some ("Chapter " +:+ n +:+ LF +:+ LF +:+ body +:+ LF) |}.

(** A flat book of ten chapters, one sentence each, as the extractor
    numbers them. *)
Definition ten_chapters : Parser.input_dir :=
  {| Parser.dirs := [];
     Parser.files :=
       map (fun n => chapter n ("Text of chapter " +:+ n +:+ "."))
           ["1"; "2"; "3"; "4"; "5"; "6"; "7"; "8"; "9"; "10"] |}.

(** A book of two chapters: the first carries markers, the second none. *)
Definition two_chapters : Parser.input_dir :=
  {| Parser.dirs := [];
     Parser.files :=
       [ {| Parser.parts := ["chapter1.txt"]; Parser.contents := Some carried |};
         {| Parser.parts := ["chapter2.txt"]; Parser.contents := Some unmarked |} ] |}.

(** A chapter file of zero bytes, and one that cannot be read. *)
Definition empty_chapter : Parser.chapter_file :=
  {| Parser.parts := ["chapter2.txt"]; Parser.contents := Some "" |}.

Definition unreadable_chapter : Parser.chapter_file :=
  {| Parser.parts := ["chapter2.txt"]; Parser.contents := None |}.

(** A marked-up book text, line by line: a preface, a chapter without a
    body line, and a chapter with one. *)
Definition preface : list string := ["A preface."; ""].

Definition empty_chapter_marker : string := "<!-- CHAPTER: the first -->".


Definition chapters_after_preface : list string :=
  ["<!-- CHAPTER: the second -->"; "Its only line."].

(** A translation service that brackets the text, and fails on [fail]. *)
Definition client (system user : string) : option string :=
  if String.eqb user "fail" then None else Some ("[" +:+ user +:+ "] ").

Definition language_map (code : string) : option string :=
  if String.eqb code "es-ES" then Some "Spanish"
  else if String.eqb code "fr-FR" then Some "French"
  else None.

(** A native record with a sentence, a sentence of blanks and a sentence
    the service fails on. *)
Definition native_record : chapter_dict :=
  {| chapterID := "c"; language := "en-US"; chapterNumber := 1;
     chapterTitle := "One";
     paragraphs :=
       [ {| paragraphID := "p"; paragraphIndex := 1;
            sentences :=
              [ {| sentenceID := "s1"; sentenceIndex := 1;
                   globalSentenceIndex := 1; reference := "";
                   text := "Hello.";
                   audioFile := "0000001_BOOKM_S1_C1_P1_S1_en-US.aac" |};
                {| sentenceID := "s2"; sentenceIndex := 2;
                   globalSentenceIndex := 2; reference := "";
                   text := "  ";
                   audioFile := "0000002_BOOKM_S1_C1_P1_S2_en-US.aac" |};
                {| sentenceID := "s3"; sentenceIndex := 3;
                   globalSentenceIndex := 3; reference := "";
                   text := "fail";
                   audioFile := "0000003_BOOKM_S1_C1_P1_S3_en-US.aac" |} ] |} ] |}.

End Samples.

(** * Proofs *)

(** ** The sentence segmentation engine *)

Module ParserFacts.
Import Py Parser.

Lemma readlines_go_nil cur s : readlines_go cur s = [] -> cur = "" /\ s = "".
Proof.
  revert cur. induction s as [|c s IH]; intros cur; simpl.
  - destruct cur; [done | discriminate].
  - destruct (c =? "010")%char; [discriminate |].
    intros H. apply IH in H as [H _]. destruct cur; discriminate.
Qed.

Lemma readlines_nil data : readlines data = [] <-> data = "".
Proof.
  split.
  - intros H. apply readlines_go_nil in H. tauto.
  - intros ->. reflexivity.
Qed.

Lemma seqZ_S m n : seqZ m (Z.of_nat (S n)) = m :: seqZ (m + 1) (Z.of_nat n).
Proof.
  rewrite Nat2Z.inj_succ, seqZ_cons, Z.pred_succ by lia.
  by rewrite Z.add_1_r.
Qed.

Section Engine.

Variable nlp_sents : string -> list string.
Variable uuid4 : nat -> string.

Lemma parse_sentences_not_nil line : parse_sentences nlp_sents line <> [].
Proof.
  unfold parse_sentences.
  destruct (filter _ _) eqn:E; [discriminate | discriminate].
Qed.

Lemma sentence_loop_acc L B sn cn pi cur texts : forall idx acc st,
  sentence_loop uuid4 L B sn cn pi cur idx texts acc st =
  (acc ++ (sentence_loop uuid4 L B sn cn pi cur idx texts [] st).1,
   (sentence_loop uuid4 L B sn cn pi cur idx texts [] st).2).
Proof.
  induction texts as [|t texts IH]; intros idx acc st; simpl.
  - by rewrite app_nil_r.
  - rewrite IH. rewrite (IH _ [_]). simpl. by rewrite <- app_assoc.
Qed.

Lemma sentence_loop_spec L B sn cn pi cur texts : forall idx st,
  let r := sentence_loop uuid4 L B sn cn pi cur idx texts [] st in
  map globalSentenceIndex r.1 = seqZ (counter_value st) (Z.of_nat (length texts)) /\
  counter_value r.2 = counter_value st + Z.of_nat (length texts) /\
  map sentenceIndex r.1 = seqZ idx (Z.of_nat (length texts)) /\
  refs_texts r.1 = map (fun t => (cur, strip t)) texts /\
  Forall (fun s => audioFile s =
            create_audio_filename (globalSentenceIndex s) B sn cn pi
              (sentenceIndex s) L) r.1.
Proof.
  induction texts as [|t texts IH]; intros idx st.
  - cbn. repeat split; try done. lia.
  - cbn [sentence_loop]. rewrite sentence_loop_acc.
    destruct (IH (idx + 1) (increment (draw st))) as (Hg & Hc & Hi & Hr & Ha).
    cbn [length fst snd app map refs_texts globalSentenceIndex sentenceIndex
         reference text audioFile counter_value increment draw] in *.
    rewrite !seqZ_S.
    repeat split.
    + by rewrite Hg.
    + rewrite Hc. lia.
    + by rewrite Hi.
    + unfold refs_texts in Hr. by rewrite Hr.
    + by constructor.
Qed.


Lemma reference_in_force_snoc pre raw :
  reference_in_force (pre ++ [raw]) =
  default (reference_in_force pre) (marker_of raw).
Proof.
  unfold reference_in_force. rewrite omap_app. simpl.
  destruct (marker_of raw) as [g|]; simpl.
  - by rewrite last_last.
  - by rewrite app_nil_r.
Qed.

Lemma line_loop_acc L B sn cn pi lines : forall cur acc st,
  line_loop nlp_sents uuid4 L B sn cn pi lines cur acc st =
  let r := line_loop nlp_sents uuid4 L B sn cn pi lines cur [] st in
  (r.1.1, acc ++ r.1.2, r.2).
Proof.
  induction lines as [|raw lines IH]; intros cur acc st; cbn [line_loop].
  - cbn. by rewrite app_nil_r.
  - destruct (negb (truthy (strip raw))); [apply IH |].
    destruct (ref_match (strip raw)); [apply IH |].
    rewrite sentence_loop_acc.
    rewrite (sentence_loop_acc _ _ _ _ _ _ _ _ []).
    cbn [app]. rewrite IH. rewrite (IH _ (_.1)).
    cbn. by rewrite app_assoc.
Qed.

Lemma line_loop_spec L B sn cn pi lines : forall pre st,
  let r := line_loop nlp_sents uuid4 L B sn cn pi lines
             (reference_in_force pre) [] st in
  r.1.1 = reference_in_force (pre ++ lines) /\
  map globalSentenceIndex r.1.2 =
    seqZ (counter_value st) (Z.of_nat (length r.1.2)) /\
  counter_value r.2 = counter_value st + Z.of_nat (length r.1.2) /\
  refs_texts r.1.2 = expected_from nlp_sents pre lines /\
  Forall (fun s => audioFile s =
            create_audio_filename (globalSentenceIndex s) B sn cn pi
              (sentenceIndex s) L) r.1.2 /\
  (r.1.2 = [] <-> forallb (fun raw => negb (sentence_line raw)) lines = true).
Proof.
  induction lines as [|raw lines IH]; intros pre st.
  - cbn. rewrite app_nil_r. repeat split; try done. lia.
  - cbn [line_loop expected_from forallb].
    specialize (IH (pre ++ [raw])).
    rewrite <- (app_assoc pre [raw] lines) in IH. cbn [app] in IH.
    rewrite reference_in_force_snoc in IH.
    unfold expected_of_line, sentence_line, marker_of in *.
    destruct (truthy (strip raw)) eqn:Ht; cbn [negb andb].
    + destruct (ref_match (strip raw)) as [g|] eqn:Hm; cbn [fmap option_fmap option_map default] in IH.
      * rewrite bool_decide_eq_true_2 by eauto. cbn. apply IH.
      * rewrite bool_decide_eq_false_2 by (intros [? ?]; discriminate).
        cbn [negb andb].
        pose proof (sentence_loop_spec L B sn cn pi (reference_in_force pre)
                      (parse_sentences nlp_sents (strip raw)) 1 st)
          as (Hg & Hc & _ & Hr & Ha).
        pose proof (parse_sentences_not_nil (strip raw)) as Hne.
        destruct (sentence_loop uuid4 L B sn cn pi (reference_in_force pre) 1
                     (parse_sentences nlp_sents (strip raw)) [] st)
          as [a1 s1].
        cbn [fst snd] in *.
        rewrite line_loop_acc. cbn zeta. cbn [fst snd].
        destruct (IH s1) as (H1 & H2 & H3 & H4 & H5 & H6).
        assert (Hlen : length a1 = length (parse_sentences nlp_sents (strip raw))).
        { rewrite <- (length_map globalSentenceIndex), Hg, length_seqZ. lia. }
        repeat split.
        -- apply H1.
        -- rewrite map_app, Hg, H2, Hc, length_app, Nat2Z.inj_add, <- Hlen.
           symmetry. apply seqZ_app; lia.
        -- rewrite H3, Hc, length_app, Nat2Z.inj_add, Hlen. lia.
        -- unfold refs_texts in *. by rewrite map_app, Hr, H4.
        -- apply Forall_app; split; [apply Ha | apply H5].
        -- intros Hnil. apply app_eq_nil in Hnil as [Hnil _].
           rewrite Hnil in Hlen. destruct (parse_sentences _ _); done.
        -- discriminate.
    + cbn [fmap option_fmap option_map default] in IH. cbn. apply IH.
Qed.


Lemma expected_from_app pre l1 : forall l2 pre',
  pre' = pre ->
  expected_from nlp_sents pre' (l1 ++ l2) =
  expected_from nlp_sents pre l1 ++ expected_from nlp_sents (pre ++ l1) l2.
Proof.
  revert pre. induction l1 as [|x l1 IH]; intros pre l2 pre' ->.
  - cbn. by rewrite app_nil_r.
  - cbn [app expected_from]. rewrite (IH (pre ++ [x]) l2 _ eq_refl).
    by rewrite <- !app_assoc.
Qed.

Lemma append_if_sentences_acc acc p :
  append_if_sentences acc p = acc ++ append_if_sentences [] p.
Proof.
  unfold append_if_sentences. destruct (sentences p); [by rewrite app_nil_r | done].
Qed.

Lemma paragraph_loop_acc L B sn cn blocks : forall idx cur acc st,
  paragraph_loop nlp_sents uuid4 L B sn cn idx blocks cur acc st =
  let r := paragraph_loop nlp_sents uuid4 L B sn cn idx blocks cur [] st in
  (acc ++ r.1, r.2).
Proof.
  induction blocks as [|b blocks IH]; intros idx cur acc st;
    cbn [paragraph_loop].
  - cbn. by rewrite app_nil_r.
  - destruct (line_loop _ _ _ _ _ _ _ _ _ _ _) as [[cur' sents] st2].
    rewrite IH. rewrite (IH _ _ (append_if_sentences [] _)).
    cbn zeta. cbn [fst snd].
    rewrite append_if_sentences_acc. by rewrite app_assoc.
Qed.

Lemma paragraph_loop_spec L B sn cn blocks : forall idx pre st,
  paragraphs_ok nlp_sents L B sn cn idx blocks pre st
    (paragraph_loop nlp_sents uuid4 L B sn cn idx blocks
       (reference_in_force pre) [] st).
Proof.
  induction blocks as [|b blocks IH]; intros idx pre st.
  - unfold paragraphs_ok. cbn. repeat split; try done. lia.
  - cbn [paragraph_loop].
    pose proof (line_loop_spec L B sn cn idx (splitlines b) pre (draw st))
      as (H1 & H2 & H3 & H4 & H5 & H6).
    destruct (line_loop _ _ _ _ _ _ _ _ _ _ _) as [[cur' sents] st2].
    cbn [fst snd draw counter_value] in *. subst cur'.
    rewrite paragraph_loop_acc. cbn zeta.
    specialize (IH (idx + 1) (pre ++ splitlines b) st2).
    destruct (paragraph_loop _ _ _ _ _ _ _ _ _ _ _) as [ps st3].
    unfold paragraphs_ok in *. cbn [fst snd] in *.
    destruct IH as (I1 & I2 & I3 & I4 & I5 & I6).
    cbn [map concat length]. rewrite seqZ_S. cbn [zip zip_with filter].
    rewrite (expected_from_app pre (splitlines b) _ pre eq_refl).
    unfold block_silent at 1.
    unfold append_if_sentences; cbn [sentences].
    destruct sents as [|s0 sents'].
    + assert (Hs : forallb (fun raw => negb (sentence_line raw)) (splitlines b) = true)
        by (by apply H6).
      rewrite filter_cons_False by (cbn [snd]; rewrite Hs; auto).
      cbn [app]. cbn in H3, H4. rewrite <- H4. cbn [app].
      replace (counter_value st2) with (counter_value st) in * by lia.
      repeat split; try done.
    + assert (Hs : forallb (fun raw => negb (sentence_line raw)) (splitlines b) = false).
      { apply not_true_is_false. intros E. apply H6 in E. discriminate. }
      rewrite filter_cons_True by (cbn [snd]; rewrite Hs; auto).
      set (sents := s0 :: sents') in *.
      cbn [app map concat paragraphIndex sentences fst].
      repeat split.
      * rewrite map_app, H2, I1, H3, length_app, Nat2Z.inj_add.
        symmetry. apply seqZ_app; lia.
      * rewrite I2, H3, length_app, Nat2Z.inj_add. lia.
      * unfold refs_texts in *. by rewrite map_app, H4, I3.
      * constructor; [apply H5 | apply I4].
      * constructor; [done | apply I5].
      * by rewrite I6.
Qed.


Lemma process_chapter_file_some name data L B sn st :
  data <> "" ->
  exists c st',
    process_chapter_file nlp_sents uuid4 name (Some data) L B sn st
      = (Some c, st') /\
    language c = L /\
    chapterNumber c = chapter_number_of name /\
    paragraphs_ok nlp_sents L B sn (chapter_number_of name) 1
      (paragraphs_text_of (readlines data)) [] (draw st) (paragraphs c, st').
Proof.
  intros Hdata. unfold process_chapter_file.
  destruct (readlines data) as [|l0 ls] eqn:Hl.
  { apply readlines_nil in Hl. done. }
  pose proof (paragraph_loop_spec L B sn (chapter_number_of name)
                (paragraphs_text_of (l0 :: ls)) 1 [] (draw st)) as Hok.
  change (reference_in_force []) with "" in Hok.
  destruct (paragraph_loop _ _ _ _ _ _ _ _ _ _ _) as [paras st2].
  eexists _, _. split; [reflexivity |]. cbn. auto.
Qed.

Lemma process_chapter_file_skip name contents L B sn st :
  contents = None \/ contents = Some "" ->
  process_chapter_file nlp_sents uuid4 name contents L B sn st = (None, st).
Proof. by intros [-> | ->]. Qed.

Lemma process_chapter_file_counter name contents L B sn st :
  let r := process_chapter_file nlp_sents uuid4 name contents L B sn st in
  let ss := from_option chapter_sentences [] r.1 in
  map globalSentenceIndex ss = seqZ (counter_value st) (Z.of_nat (length ss)) /\
  counter_value r.2 = counter_value st + Z.of_nat (length ss).
Proof.
  destruct contents as [data|]; [| cbn; split; [done | lia]].
  destruct (decide (data = "")) as [-> | Hne]; [cbn; split; [done | lia] |].
  destruct (process_chapter_file_some name data L B sn st Hne)
    as (c & st' & -> & _ & _ & Hg & Hc & _).
  cbn [fst snd from_option draw counter_value] in *.
  by split.
Qed.

Lemma chapter_files_loop_acc dflt L B chapter_files : forall out st,
  chapter_files_loop nlp_sents uuid4 dflt L B chapter_files out st =
  let r := chapter_files_loop nlp_sents uuid4 dflt L B chapter_files [] st in
  (out ++ r.1, r.2).
Proof.
  induction chapter_files as [|f fs IH]; intros out st;
    cbn [chapter_files_loop].
  - cbn. by rewrite app_nil_r.
  - destruct (if dflt then _ else _) as [folder sn].
    destruct (process_chapter_file _ _ _ _ _ _ _ _) as [[c|] st'].
    + rewrite IH. rewrite (IH ([] ++ [_])). cbn. by rewrite <- app_assoc.
    + apply IH.
Qed.

Lemma run_sentences_app out1 out2 :
  run_sentences (out1 ++ out2) = run_sentences out1 ++ run_sentences out2.
Proof. unfold run_sentences. by rewrite map_app, concat_app. Qed.

Lemma run_sentences_cons r out :
  run_sentences (r :: out) = chapter_sentences r.2 ++ run_sentences out.
Proof. reflexivity. Qed.

Lemma chapter_files_loop_counter dflt L B chapter_files : forall st,
  let r := chapter_files_loop nlp_sents uuid4 dflt L B chapter_files [] st in
  map globalSentenceIndex (run_sentences r.1) =
    seqZ (counter_value st) (Z.of_nat (length (run_sentences r.1))) /\
  counter_value r.2 =
    counter_value st + Z.of_nat (length (run_sentences r.1)).
Proof.
  induction chapter_files as [|f fs IH]; intros st;
    cbn [chapter_files_loop].
  - cbn. split; [done | lia].
  - destruct (if dflt then _ else _) as [folder sn].
    pose proof (process_chapter_file_counter (name f) (contents f) L B sn st)
      as [Hg Hc].
    destruct (process_chapter_file _ _ _ _ _ _ _ _) as [[c|] st'];
      cbn [fst snd from_option] in *.
    + rewrite chapter_files_loop_acc. cbn zeta. cbn [fst snd].
      destruct (IH st') as [Ig Ic].
      cbn [app]. rewrite run_sentences_cons. cbn [snd].
      rewrite map_app, length_app, Nat2Z.inj_add, Hg, Ig, Ic, Hc.
      split; [symmetry; apply seqZ_app; lia | lia].
    + replace (counter_value st) with (counter_value st') by (cbn in Hc; lia).
      apply IH.
Qed.

Lemma chapter_files_loop_skip dflt L B f pre post : forall out st,
  contents f = None \/ contents f = Some "" ->
  chapter_files_loop nlp_sents uuid4 dflt L B (pre ++ f :: post) out st =
  chapter_files_loop nlp_sents uuid4 dflt L B (pre ++ post) out st.
Proof.
  induction pre as [|g pre IH]; intros out st Hf; cbn [app chapter_files_loop].
  - destruct (if dflt then _ else _) as [folder sn].
    by rewrite process_chapter_file_skip.
  - destruct (if dflt then _ else _) as [folder sn].
    destruct (process_chapter_file _ _ _ _ _ _ _ _) as [[c|] st'];
      by apply IH.
Qed.

Lemma omap_marker_cons raw lines :
  omap marker_of (raw :: lines) =
  match marker_of raw with
  | Some g => g :: omap marker_of lines
  | None => omap marker_of lines
  end.
Proof. reflexivity. Qed.

Lemma expected_from_no_marker lines : forall pre,
  omap marker_of lines = [] ->
  Forall (fun rt => rt.1 = reference_in_force pre)
         (expected_from nlp_sents pre lines).
Proof.
  induction lines as [|raw lines IH]; intros pre Hm; cbn [expected_from].
  - constructor.
  - rewrite omap_marker_cons in Hm. destruct (marker_of raw) as [g|] eqn:Hg; [done |].
    apply Forall_app; split.
    + unfold expected_of_line. destruct (sentence_line raw); [| constructor].
      apply Forall_forall. intros rt Hin. apply list_elem_of_fmap in Hin as (t & -> & _).
      reflexivity.
    + specialize (IH (pre ++ [raw]) Hm).
      rewrite reference_in_force_snoc, Hg in IH. apply IH.
Qed.

Lemma marker_not_sentence_line raw g :
  marker_of raw = Some g -> sentence_line raw = false.
Proof.
  unfold marker_of, sentence_line.
  destruct (truthy (strip raw)); [| done].
  destruct (ref_match (strip raw)); [| done].
  intros _. by rewrite bool_decide_eq_true_2 by eauto.
Qed.

Lemma reference_in_force_no_marker pre :
  omap marker_of pre = [] -> reference_in_force pre = "".
Proof. unfold reference_in_force. by intros ->. Qed.

Lemma reference_in_force_last_marker pre raw g mid :
  marker_of raw = Some g -> omap marker_of mid = [] ->
  reference_in_force (pre ++ raw :: mid) = g.
Proof.
  intros Hg Hmid. unfold reference_in_force.
  rewrite omap_app, omap_marker_cons, Hg, Hmid.
  apply (last_last _ g "").
Qed.


(** The positions of the sounding blocks, counted from [idx]. *)
Lemma positions_all_sounding blocks : forall idx,
  forallb (fun b => negb (block_silent b)) blocks = true ->
  map fst (filter (fun ib : Z * string => negb (block_silent (snd ib)))
                  (zip (seqZ idx (Z.of_nat (length blocks))) blocks))
  = seqZ idx (Z.of_nat (length blocks)).
Proof.
  induction blocks as [|b blocks IH]; intros idx Hall; [done |].
  cbn [forallb] in Hall. apply andb_prop in Hall as [Hb Hall].
  cbn [length]. rewrite seqZ_S. cbn [zip zip_with].
  rewrite filter_cons_True by (cbn [snd]; rewrite Hb; auto).
  cbn [map fst]. by rewrite IH.
Qed.

Lemma positions_lower_bound blocks : forall idx x,
  x ∈ map fst (filter (fun ib : Z * string => negb (block_silent (snd ib)))
                      (zip (seqZ idx (Z.of_nat (length blocks))) blocks)) ->
  idx <= x.
Proof.
  induction blocks as [|b blocks IH]; intros idx x Hx.
  - cbn in Hx. by apply elem_of_nil in Hx.
  - cbn [length] in Hx. rewrite seqZ_S in Hx. cbn [zip zip_with] in Hx.
    destruct (block_silent b) eqn:Hb.
    + rewrite filter_cons_False in Hx by (cbn [snd]; rewrite Hb; auto).
      apply IH in Hx. lia.
    + rewrite filter_cons_True in Hx by (cbn [snd]; rewrite Hb; auto).
      cbn [map fst] in Hx. apply elem_of_cons in Hx as [-> | Hx]; [lia |].
      apply IH in Hx. lia.
Qed.

Lemma positions_skip_silent blocks : forall idx i b,
  blocks !! i = Some b -> block_silent b = true ->
  idx + Z.of_nat i ∉
    map fst (filter (fun ib : Z * string => negb (block_silent (snd ib)))
                    (zip (seqZ idx (Z.of_nat (length blocks))) blocks)).
Proof.
  induction blocks as [|b0 blocks IH]; intros idx i b Hi Hb; [done |].
  cbn [length]. rewrite seqZ_S. cbn [zip zip_with].
  destruct i as [|i]; cbn in Hi.
  - injection Hi as ->.
    rewrite filter_cons_False by (cbn [snd]; rewrite Hb; auto).
    intros Hx. apply positions_lower_bound in Hx. lia.
  - replace (idx + Z.of_nat (S i)) with ((idx + 1) + Z.of_nat i) by lia.
    destruct (block_silent b0) eqn:Hb0.
    + rewrite filter_cons_False by (cbn [snd]; rewrite Hb0; auto).
      by eapply IH.
    + rewrite filter_cons_True by (cbn [snd]; rewrite Hb0; auto).
      cbn [map fst]. intros Hx. apply elem_of_cons in Hx as [Hx | Hx]; [lia |].
      by eapply IH.
Qed.


(** C1: in a book run the shared counter starts at 1, and the global
    sentence indices of the sentence records, in the order they are emitted,
    are 1, 2, ..., N for the N records of the run: no gap, no repeat,
    increasing.  The counter ends at 1 + N: it is incremented once per
    record and never reset between chapters.  Stated for the loop over any
    sequence of chapter files, and for [process_all_chapter_files]. *)
Theorem C1_global_indices_one_to_N :
  (forall dflt L B chapter_files,
     let r := chapter_files_loop nlp_sents uuid4 dflt L B chapter_files []
                initial_state in
     map globalSentenceIndex (run_sentences r.1) =
       seqZ 1 (Z.of_nat (length (run_sentences r.1))) /\
     counter_value r.2 = 1 + Z.of_nat (length (run_sentences r.1))) /\
  (forall base_input_dir L B,
     let r := process_all_chapter_files nlp_sents uuid4 base_input_dir L B in
     map globalSentenceIndex (run_sentences r.1) =
       seqZ 1 (Z.of_nat (length (run_sentences r.1))) /\
     counter_value r.2 = 1 + Z.of_nat (length (run_sentences r.1))).
Proof.
  split.
  - intros dflt L B chapter_files.
    apply (chapter_files_loop_counter dflt L B chapter_files initial_state).
  - intros d L B. unfold process_all_chapter_files.
    apply (chapter_files_loop_counter _ L B _ initial_state).
Qed.

(** C2: the references of the sentence records of a chapter, in order, are
    those of a scan of the chapter's lines across its paragraph blocks in
    which every sentence carries the reference of the last marker line
    before its own line, and the empty reference when there is none.  A
    marker line yields no record.  The scan starts from the empty reference
    whatever the state of the run, so a chapter without a marker has empty
    references only, whatever was processed before it. *)
Theorem C2_reference_carry_forward name data L B sn st :
  data <> "" ->
  exists c st',
    process_chapter_file nlp_sents uuid4 name (Some data) L B sn st
      = (Some c, st') /\
    refs_texts (chapter_sentences c) =
      expected_from nlp_sents [] (scanned_lines data) /\
    (forall pre raw g, marker_of raw = Some g ->
       expected_of_line nlp_sents pre raw = []) /\
    (forall pre raw g mid, marker_of raw = Some g ->
       omap marker_of mid = [] ->
       reference_in_force (pre ++ raw :: mid) = g) /\
    (forall pre, omap marker_of pre = [] -> reference_in_force pre = "") /\
    (omap marker_of (scanned_lines data) = [] ->
       Forall (fun s => reference s = "") (chapter_sentences c)).
Proof.
  intros Hdata.
  destruct (process_chapter_file_some name data L B sn st Hdata)
    as (c & st' & Hrun & _ & _ & _ & _ & Hrefs & _).
  exists c, st'. split; [exact Hrun |]. cbn [fst] in Hrefs.
  split; [exact Hrefs |].
  split.
  { intros pre raw g Hg. unfold expected_of_line.
    by rewrite (marker_not_sentence_line raw g Hg). }
  split; [apply reference_in_force_last_marker |].
  split; [apply reference_in_force_no_marker |].
  intros Hnone.
  pose proof (expected_from_no_marker (scanned_lines data) [] Hnone) as Hall.
  unfold scanned_lines in Hall. fold (chapter_sentences c) in Hrefs.
  rewrite <- Hrefs in Hall. unfold refs_texts in Hall.
  rewrite Forall_fmap in Hall. exact Hall.
Qed.

(** C4: every [audioFile] of a chapter record is the file name derived
    from the coordinates of its own sentence: its global index padded to
    seven digits, the book code, the subbook number, the chapter number of
    the record, the index of the enclosing paragraph, the sentence's own
    index and the language of the record.  The coordinates
    (42, BOOKM, 1, 3, 2, 5, en-US) give 0000042_BOOKM_S1_C3_P2_S5_en-US.aac. *)
Theorem C4_audio_file_name :
  (forall name data L B sn st, data <> "" ->
   exists c st',
     process_chapter_file nlp_sents uuid4 name (Some data) L B sn st
       = (Some c, st') /\
     language c = L /\ audio_consistent B sn c) /\
  create_audio_filename 42 "BOOKM" 1 3 2 5 "en-US"
    = "0000042_BOOKM_S1_C3_P2_S5_en-US.aac".
Proof.
  split; [| reflexivity].
  intros name data L B sn st Hdata.
  destruct (process_chapter_file_some name data L B sn st Hdata)
    as (c & st' & Hrun & HL & Hn & _ & _ & _ & Ha & _).
  exists c, st'. unfold audio_consistent. rewrite HL, Hn. auto.
Qed.

(** C5, as amended: the [paragraphIndex] values of a chapter record are, in
    order, the 1-based positions among the chapter's paragraph blocks of the
    blocks that bear a sentence; they are 1, ..., k when every block bears
    one. *)
Theorem C5_paragraph_index_is_block_position name data L B sn st :
  data <> "" ->
  exists c st',
    process_chapter_file nlp_sents uuid4 name (Some data) L B sn st
      = (Some c, st') /\
    map paragraphIndex (paragraphs c) =
      sounding_positions (paragraphs_text_of (readlines data)) /\
    (forallb (fun b => negb (block_silent b))
             (paragraphs_text_of (readlines data)) = true ->
     map paragraphIndex (paragraphs c) =
       seqZ 1 (Z.of_nat (length (paragraphs c)))).
Proof.
  intros Hdata.
  destruct (process_chapter_file_some name data L B sn st Hdata)
    as (c & st' & Hrun & _ & _ & _ & _ & _ & _ & _ & Hidx).
  exists c, st'. split; [exact Hrun |]. cbn [fst] in Hidx.
  split; [exact Hidx |].
  intros Hall.
  assert (Hseq : map paragraphIndex (paragraphs c) =
                 seqZ 1 (Z.of_nat (length (paragraphs_text_of (readlines data))))).
  { rewrite Hidx. by apply positions_all_sounding. }
  rewrite Hseq. f_equal. f_equal.
  apply (f_equal length) in Hseq.
  rewrite length_map, length_seqZ in Hseq. lia.
Qed.

(** C6: every paragraph of a chapter record has at least one sentence, and
    a block without a sentence-bearing line (blank lines and reference
    markers only) has no paragraph in the record: its position is the
    [paragraphIndex] of none. *)
Theorem C6_empty_paragraph_dropped name data L B sn st :
  data <> "" ->
  exists c st',
    process_chapter_file nlp_sents uuid4 name (Some data) L B sn st
      = (Some c, st') /\
    Forall (fun p => sentences p <> []) (paragraphs c) /\
    (forall i block,
       paragraphs_text_of (readlines data) !! i = Some block ->
       block_silent block = true ->
       1 + Z.of_nat i ∉ map paragraphIndex (paragraphs c)).
Proof.
  intros Hdata.
  destruct (process_chapter_file_some name data L B sn st Hdata)
    as (c & st' & Hrun & _ & _ & _ & _ & _ & _ & Hne & Hidx).
  exists c, st'. split; [exact Hrun |]. cbn [fst] in *.
  split; [exact Hne |].
  intros i block Hi Hs. rewrite Hidx. by eapply positions_skip_silent.
Qed.

(** C7: a chapter file that cannot be read, or is empty, yields no record
    and leaves the counter (the whole state of the run) as it was; the loop
    goes on with the remaining files as if the file were not there. *)
Theorem C7_unreadable_or_empty_skipped dflt L B f :
  contents f = None \/ contents f = Some "" ->
  (forall sn st,
     process_chapter_file nlp_sents uuid4 (name f) (contents f) L B sn st
       = (None, st)) /\
  (forall pre post out st,
     chapter_files_loop nlp_sents uuid4 dflt L B (pre ++ f :: post) out st =
     chapter_files_loop nlp_sents uuid4 dflt L B (pre ++ post) out st).
Proof.
  intros Hf. split.
  - intros sn st. by apply process_chapter_file_skip.
  - intros pre post out st. by apply chapter_files_loop_skip.
Qed.

End Engine.

(** *** The engine on the sample inputs *)

(** The end-to-end scenario: two paragraphs, global indices 1, 2, 3 in that
    order, all references empty, and the title in title case. *)
Example two_paragraphs_scenario :
  exists c,
    process_chapter_file Samples.nlp_sents Samples.uuid4 "chapter3.txt"
      (Some Samples.two_paragraphs) "en-US" "BOOKM" 1 initial_state
      = (Some c, {| counter_value := 4; uuids_drawn := 6 |}) /\
    chapterTitle c = "The Golden Bird" /\
    map paragraphIndex (paragraphs c) = [1; 2] /\
    map (fun p => map sentenceIndex (sentences p)) (paragraphs c) = [[1; 2]; [1]] /\
    map globalSentenceIndex (chapter_sentences c) = [1; 2; 3] /\
    refs_texts (chapter_sentences c) =
      [("", "Hello world."); ("", "Second sentence."); ("", "Third one here.")].
Proof. eexists. split; [vm_compute; reflexivity |]. by vm_compute. Qed.

Example title_case_of_minor_words :
  title_case "the golden bird" = "The Golden Bird" /\
  title_case "song of the sea" = "Song of the Sea".
Proof. by vm_compute. Qed.

(** A marker, two sentences in different paragraphs, a second marker and a
    sentence; then a chapter without a marker in the same run. *)
Example carried_across_paragraphs_not_chapters :
  map (fun r => refs_texts (chapter_sentences r.2))
      (process_all_chapter_files Samples.nlp_sents Samples.uuid4
         Samples.two_chapters "en-US" "BOOKM").1
  = [ [("", "Before."); ("1:1", "Sentence A."); ("1:1", "Sentence B.");
       ("1:2", "Sentence C.")];
      [("", "Sentence D.")] ].
Proof. by vm_compute. Qed.

(** C3: on a flat book of ten chapters numbered as the extractor numbers
    them, the sorted file paths put chapter 10 before chapter 2, so the
    sentence of chapter 10 gets the global index 2 and that of chapter 2
    the global index 3. *)
Theorem C3_chapter_ten_before_chapter_two :
  map (fun r => (chapterNumber r.2,
                 map globalSentenceIndex (chapter_sentences r.2)))
      (process_all_chapter_files Samples.nlp_sents Samples.uuid4
         Samples.ten_chapters "en-US" "BOOKM").1
  = [(1, [1]); (10, [2]); (2, [3]); (3, [4]); (4, [5]); (5, [6]);
     (6, [7]); (7, [8]); (8, [9]); (9, [10])].
Proof. by vm_compute. Qed.

Lemma C2_witness :
  Samples.carried <> "" /\
  exists c st',
    process_chapter_file Samples.nlp_sents Samples.uuid4 "chapter1.txt"
      (Some Samples.carried) "en-US" "BOOKM" 1 initial_state = (Some c, st') /\
    refs_texts (chapter_sentences c) =
      [("", "Before."); ("1:1", "Sentence A."); ("1:1", "Sentence B.");
       ("1:2", "Sentence C.")].
Proof.
  assert (Hne : Samples.carried <> "") by (vm_compute; discriminate).
  split; [exact Hne |].
  destruct (C2_reference_carry_forward Samples.nlp_sents Samples.uuid4
              "chapter1.txt" Samples.carried "en-US" "BOOKM" 1 initial_state Hne)
    as (c & st' & Hrun & Hrefs & _).
  exists c, st'. split; [exact Hrun |].
  rewrite Hrefs. vm_compute. reflexivity.
Defined.

Lemma C4_witness :
  Samples.two_paragraphs <> "" /\
  exists c st',
    process_chapter_file Samples.nlp_sents Samples.uuid4 "chapter3.txt"
      (Some Samples.two_paragraphs) "en-US" "BOOKM" 1 initial_state
      = (Some c, st') /\
    language c = "en-US" /\ audio_consistent "BOOKM" 1 c.
Proof.
  assert (Hne : Samples.two_paragraphs <> "") by (vm_compute; discriminate).
  split; [exact Hne |].
  exact (proj1 (C4_audio_file_name Samples.nlp_sents Samples.uuid4)
           "chapter3.txt" Samples.two_paragraphs "en-US" "BOOKM" 1
           initial_state Hne).
Defined.

(** C5, as stated, fails: a chapter whose first block holds a reference
    marker only has one paragraph, and its [paragraphIndex] is 2. *)
Lemma C5_counterexample_gap :
  exists c st',
    process_chapter_file Samples.nlp_sents Samples.uuid4 "chapter3.txt"
      (Some Samples.marker_only_block) "en-US" "BOOKM" 1 initial_state
      = (Some c, st') /\
    map paragraphIndex (paragraphs c) = [2] /\
    map paragraphIndex (paragraphs c) <>
      seqZ 1 (Z.of_nat (length (paragraphs c))).
Proof.
  eexists _, _. split; [vm_compute; reflexivity |].
  split; [reflexivity | vm_compute; discriminate].
Qed.

Lemma C5_witness :
  Samples.marker_only_block <> "" /\
  exists c st',
    process_chapter_file Samples.nlp_sents Samples.uuid4 "chapter3.txt"
      (Some Samples.marker_only_block) "en-US" "BOOKM" 1 initial_state
      = (Some c, st') /\
    map paragraphIndex (paragraphs c) = [2].
Proof.
  assert (Hne : Samples.marker_only_block <> "") by (vm_compute; discriminate).
  split; [exact Hne |].
  destruct (C5_paragraph_index_is_block_position Samples.nlp_sents
              Samples.uuid4 "chapter3.txt" Samples.marker_only_block
              "en-US" "BOOKM" 1 initial_state Hne)
    as (c & st' & Hrun & Hidx & _).
  exists c, st'. split; [exact Hrun |].
  rewrite Hidx. vm_compute. reflexivity.
Defined.

Lemma C6_witness :
  Samples.marker_only_block <> "" /\
  exists c st',
    process_chapter_file Samples.nlp_sents Samples.uuid4 "chapter3.txt"
      (Some Samples.marker_only_block) "en-US" "BOOKM" 1 initial_state
      = (Some c, st') /\
    Forall (fun p => sentences p <> []) (paragraphs c) /\
    1 ∉ map paragraphIndex (paragraphs c).
Proof.
  assert (Hne : Samples.marker_only_block <> "") by (vm_compute; discriminate).
  split; [exact Hne |].
  destruct (C6_empty_paragraph_dropped Samples.nlp_sents
              Samples.uuid4 "chapter3.txt" Samples.marker_only_block
              "en-US" "BOOKM" 1 initial_state Hne)
    as (c & st' & Hrun & Hall & Hskip).
  exists c, st'. split; [exact Hrun |]. split; [exact Hall |].
  apply (Hskip 0%nat "<!-- REF: 1:1 -->"); vm_compute; reflexivity.
Defined.

Lemma C7_witness :
  (contents Samples.empty_chapter = None \/
   contents Samples.empty_chapter = Some "") /\
  process_chapter_file Samples.nlp_sents Samples.uuid4
    (name Samples.empty_chapter) (contents Samples.empty_chapter)
    "en-US" "BOOKM" 1 initial_state = (None, initial_state) /\
  chapter_files_loop Samples.nlp_sents Samples.uuid4 true "en-US" "BOOKM"
    ([Samples.chapter "1" "One."] ++
     Samples.empty_chapter :: [Samples.chapter "3" "Three."])
    [] initial_state =
  chapter_files_loop Samples.nlp_sents Samples.uuid4 true "en-US" "BOOKM"
    ([Samples.chapter "1" "One."] ++ [Samples.chapter "3" "Three."])
    [] initial_state.
Proof.
  assert (Hf : contents Samples.empty_chapter = None \/
               contents Samples.empty_chapter = Some "")
    by (right; reflexivity).
  split; [exact Hf |].
  destruct (C7_unreadable_or_empty_skipped Samples.nlp_sents Samples.uuid4
              true "en-US" "BOOKM" Samples.empty_chapter Hf) as [H1 H2].
  split; [apply H1 | apply H2].
Defined.

End ParserFacts.

(** ** The chapter extractor *)

Module ExtractorFacts.
Import Py Extractor.





Lemma write_current_chapter_ok lines files units dir title ls :
  units_ok lines units ->
  Forall (fun l => l ∈ lines /\ classify l = Body) ls ->
  units_ok lines (write_current_chapter files units dir title ls).2.
Proof.
  intros Hu Hl. unfold write_current_chapter.
  destruct (truthy title) eqn:Ht; cbn [negb orb]; [| exact Hu].
  case_bool_decide as Hnil; [exact Hu |]. cbn [snd].
  apply Forall_app; split; [exact Hu |].
  constructor; [| constructor]. cbn.
  split; [done |]. split; [| done]. by destruct title.
Qed.

Lemma step_ok lines st line :
  line ∈ lines -> state_ok lines st -> state_ok lines (step st line).
Proof.
  intros Hin [Hl Hu]. unfold step.
  destruct (classify line) as [t | t |] eqn:Hk.
  - destruct (in_progress st) as [title|].
    + pose proof (write_current_chapter_ok lines (fs st) (written st)
                    (current_output_dir st) title (chapter_lines st) Hu Hl) as Hw.
      destruct (write_current_chapter _ _ _ _ _). by split.
    + by split.
  - destruct (in_progress st) as [title|].
    + pose proof (write_current_chapter_ok lines (fs st) (written st)
                    (current_output_dir st) title (chapter_lines st) Hu Hl) as Hw.
      destruct (write_current_chapter _ _ _ _ _). by split.
    + by split.
  - destruct (current_chapter st); [| by split].
    split; [| exact Hu]. cbn.
    apply Forall_app; split; [exact Hl |]. by constructor.
Qed.

Lemma foldl_step_ok lines ls : forall st,
  Forall (fun l => l ∈ lines) ls ->
  state_ok lines st -> state_ok lines (foldl step st ls).
Proof.
  induction ls as [|l ls IH]; intros st Hin Hok; [done |].
  apply Forall_cons in Hin as [Hl Hin].
  cbn. apply IH; [exact Hin |]. by apply step_ok.
Qed.

Lemma extract_lines_ok lines fs0 :
  units_ok lines (extract_lines lines fs0).2.
Proof.
  unfold extract_lines, finish.
  destruct (foldl_step_ok lines lines (initial fs0)) as [Hl Hu].
  { apply Forall_forall. auto. }
  { split; [constructor | constructor]. }
  destruct (in_progress _) as [title|]; [| exact Hu].
  pose proof (write_current_chapter_ok lines
                (fs (foldl step (initial fs0) lines)) _
                (current_output_dir (foldl step (initial fs0) lines)) title _
                Hu Hl) as Hw.
  by destruct (write_current_chapter _ _ _ _ _).
Qed.









(** The units written for the sample book: the preface and the chapter
    without a body line leave no trace. *)
Example sample_book_units :
  (extract_lines (Samples.preface ++ Samples.empty_chapter_marker ::
                  Samples.chapters_after_preface) []).2
  = [ {| unit_dir := []; unit_file := "chapter1.txt";
         unit_title := "the second"; unit_lines := ["Its only line."] |} ].
Proof. by vm_compute. Qed.


End ExtractorFacts.

(** ** The translator *)

Module TranslatorFacts.
Import Py Translator.

(** *** Loading a document *)

Lemma load_sentences_spec ss : forall h,
  load_sentences ss h =
  (h ++ map SentenceObj ss, seq (length h) (length ss)).
Proof.
  induction ss as [|s ss IH]; intros h; cbn [load_sentences alloc].
  - by rewrite app_nil_r.
  - rewrite IH. rewrite length_app. cbn [length map seq].
    rewrite <- app_assoc. cbn [app].
    by replace (length h + 1)%nat with (S (length h)) by lia.
Qed.

Lemma sentences_at_loaded h ss ext :
  Forall2 (sentence_at (h ++ map SentenceObj ss ++ ext))
          (seq (length h) (length ss)) ss.
Proof.
  revert h. induction ss as [|s ss IH]; intros h; cbn; [constructor |].
  constructor.
  - unfold sentence_at. rewrite lookup_app_r by lia.
    by replace (length h - length h)%nat with 0%nat by lia.
  - specialize (IH (h ++ [SentenceObj s])).
    rewrite length_app in IH. cbn [length] in IH.
    replace (length h + 1)%nat with (S (length h)) in IH by lia.
    by rewrite <- app_assoc in IH.
Qed.

(** A tree may be looked up in any store that agrees on its addresses. *)
Lemma sentences_at_frame h h' sents ss :
  (forall l, l ∈ sents -> h' !! l = h !! l) ->
  Forall2 (sentence_at h) sents ss -> Forall2 (sentence_at h') sents ss.
Proof.
  intros Hf H. induction H as [|l s sents ss Hl H IH]; constructor.
  - unfold sentence_at in *. rewrite Hf; [done | by left].
  - apply IH. intros l' Hin. apply Hf. by right.
Qed.

Lemma paragraph_at_frame h h' l sents p :
  (forall x, x ∈ l :: sents -> h' !! x = h !! x) ->
  paragraph_at h l sents p -> paragraph_at h' l sents p.
Proof.
  intros Hf [Hl Hs]. split.
  - rewrite Hf; [done | by left].
  - eapply sentences_at_frame; [| exact Hs]. intros x Hx. apply Hf. by right.
Qed.

Lemma paragraphs_at_frame h h' paras sentss ps :
  (forall x, x ∈ paras ++ concat sentss -> h' !! x = h !! x) ->
  Forall3 (paragraph_at h) paras sentss ps ->
  Forall3 (paragraph_at h') paras sentss ps.
Proof.
  intros Hf H.
  induction H as [|l sents p paras sentss ps Hp H IH]; constructor.
  - eapply paragraph_at_frame; [| exact Hp].
    intros x Hx. apply Hf. cbn [concat].
    apply elem_of_cons in Hx as [-> | Hx]; [by left |].
    right. apply elem_of_app. right. apply elem_of_app. by left.
  - apply IH. intros x Hx. apply Hf. cbn [concat].
    apply elem_of_app in Hx as [Hx | Hx].
    + right. apply elem_of_app. by left.
    + right. apply elem_of_app. right. apply elem_of_app. by right.
Qed.

Lemma chapter_at_frame h h' root paras sentss c :
  (forall x, x ∈ root :: paras ++ concat sentss -> h' !! x = h !! x) ->
  chapter_at h root paras sentss c -> chapter_at h' root paras sentss c.
Proof.
  intros Hf (Hr & Hp & Hnd). split; [| split; [| exact Hnd]].
  - rewrite Hf; [done | by left].
  - eapply paragraphs_at_frame; [| exact Hp]. intros x Hx. apply Hf. by right.
Qed.

Lemma within_mono a b a' b' ls :
  (a' <= a)%nat -> (b <= b')%nat -> within a b ls -> within a' b' ls.
Proof.
  intros Ha Hb H. eapply Forall_impl; [exact H |]. intros l Hl. cbn in *. lia.
Qed.

Lemma within_disjoint_NoDup a b c ls ks :
  within a b ls -> within b c ks -> NoDup ls -> NoDup ks -> NoDup (ls ++ ks).
Proof.
  intros Hl Hk Nl Nk. apply NoDup_app. split; [exact Nl |]. split; [| exact Nk].
  intros x Hx Hx'.
  eapply Forall_forall in Hl; [| exact Hx].
  eapply Forall_forall in Hk; [| exact Hx']. lia.
Qed.

Lemma load_paragraphs_spec ps : forall h,
  exists ext sentss,
    let r := load_paragraphs ps h in
    r.1 = h ++ ext /\
    Forall3 (paragraph_at r.1) r.2 sentss ps /\
    within (length h) (length r.1) (r.2 ++ concat sentss) /\
    NoDup (r.2 ++ concat sentss).
Proof.
  induction ps as [|p ps IH]; intros h.
  - exists [], []. cbn. rewrite app_nil_r.
    repeat split; constructor.
  - cbn [load_paragraphs]. unfold load_paragraph.
    rewrite load_sentences_spec. cbn [alloc].
    set (n := length (sentences p)).
    set (h1 := (h ++ map SentenceObj (sentences p)) ++
               [ParagraphObj (paragraphID p) (paragraphIndex p)
                  (seq (length h) n)]).
    assert (Hlen1 : length h1 = S (length h + n)).
    { unfold h1, n. rewrite !length_app, length_map. cbn. lia. }
    destruct (IH h1) as (ext & sentss & Hext & Hps & Hin & Hnd).
    destruct (load_paragraphs ps h1) as [h2 ls]. cbn [fst snd] in *.
    exists ((map SentenceObj (sentences p) ++
             [ParagraphObj (paragraphID p) (paragraphIndex p) (seq (length h) n)])
            ++ ext), (seq (length h) n :: sentss).
    cbn [fst snd concat].
    assert (Hlen2 : (length h1 <= length h2)%nat).
    { rewrite Hext, length_app. lia. }
    rewrite (length_app h), length_map. fold n.
    split; [| split; [| split]].
    + rewrite Hext. unfold h1. by rewrite <- !app_assoc.
    + constructor; [| exact Hps].
      rewrite Hext. unfold h1. split.
      * rewrite <- !app_assoc. rewrite lookup_app_r by lia.
        replace (length h + n - length h)%nat with n by lia.
        rewrite lookup_app_r by (rewrite length_map; fold n; lia).
        rewrite length_map. fold n.
        by replace (n - n)%nat with 0%nat by lia.
      * rewrite <- !app_assoc. apply sentences_at_loaded.
    + apply Forall_cons. split; [lia |].
      apply Forall_app in Hin as [Hin1 Hin2].
      apply Forall_app. split.
      * eapply within_mono; [| | exact Hin1]; lia.
      * apply Forall_app. split.
        -- apply Forall_forall. intros x Hx. apply elem_of_seq in Hx. lia.
        -- eapply within_mono; [| | exact Hin2]; lia.
    + apply NoDup_app in Hnd as (Nl & Hdisj & Ns).
      apply Forall_app in Hin as [Hin1 Hin2].
      apply NoDup_cons. split.
      * intros Hx. apply elem_of_app in Hx as [Hx | Hx].
        -- eapply Forall_forall in Hin1; [| exact Hx]. lia.
        -- apply elem_of_app in Hx as [Hx | Hx].
           ++ apply elem_of_seq in Hx. lia.
           ++ eapply Forall_forall in Hin2; [| exact Hx]. lia.
      * apply NoDup_app. split; [exact Nl |]. split.
        -- intros x Hx Hx'. apply elem_of_app in Hx' as [Hx' | Hx'].
           ++ apply elem_of_seq in Hx'.
              eapply Forall_forall in Hin1; [| exact Hx]. lia.
           ++ by apply (Hdisj x).
        -- eapply (within_disjoint_NoDup (length h) (length h1) (length h2));
             [| exact Hin2 | apply NoDup_seq | exact Ns].
           apply Forall_forall. intros x Hx. apply elem_of_seq in Hx. lia.
Qed.


Lemma json_loads_spec c h :
  exists ext paras sentss,
    let r := json_loads c h in
    r.1 = h ++ ext /\
    chapter_at r.1 r.2 paras sentss c /\
    within (length h) (length r.1) (r.2 :: paras ++ concat sentss).
Proof.
  unfold json_loads.
  destruct (load_paragraphs_spec (paragraphs c) h)
    as (ext & sentss & Hext & Hps & Hin & Hnd).
  destruct (load_paragraphs (paragraphs c) h) as [h1 paras].
  cbn [fst snd alloc] in *.
  exists (ext ++ [ChapterObj (chapterID c) (language c) (chapterNumber c)
                    (chapterTitle c) paras]), paras, sentss.
  assert (Hlen : (length h <= length h1)%nat) by (rewrite Hext, length_app; lia).
  split; [by rewrite Hext, <- app_assoc |].
  split; [split; [| split] |].
  - rewrite lookup_app_r by lia.
    by replace (length h1 - length h1)%nat with 0%nat by lia.
  - eapply paragraphs_at_frame; [| exact Hps].
    intros x Hx. eapply Forall_forall in Hin; [| exact Hx].
    apply lookup_app_l. lia.
  - apply NoDup_cons. split; [| exact Hnd].
    intros Hx. eapply Forall_forall in Hin; [| exact Hx]. lia.
  - rewrite length_app. cbn [length].
    apply Forall_cons. split; [lia |].
    eapply within_mono; [| | exact Hin]; lia.
Qed.

(** *** Reading a document back *)

Lemma dump_sentences_at h sents ss :
  Forall2 (sentence_at h) sents ss -> mapM (dump_sentence h) sents = Some ss.
Proof.
  intros H. apply mapM_Some. eapply Forall2_impl; [exact H |].
  intros l s Hl. unfold dump_sentence. by rewrite Hl.
Qed.

Lemma dump_paragraph_at h l sents p :
  paragraph_at h l sents p -> dump_paragraph h l = Some p.
Proof.
  intros [Hl Hs]. unfold dump_paragraph. rewrite Hl.
  rewrite (dump_sentences_at h sents (sentences p) Hs). cbn. by destruct p.
Qed.

Lemma dump_paragraphs_at h paras sentss ps :
  Forall3 (paragraph_at h) paras sentss ps ->
  mapM (dump_paragraph h) paras = Some ps.
Proof.
  intros H. apply mapM_Some.
  induction H as [|l sents p paras sentss ps Hp H IH]; constructor; [| exact IH].
  by eapply dump_paragraph_at.
Qed.

Lemma json_dumps_at h root paras sentss c :
  chapter_at h root paras sentss c -> json_dumps h root = Some c.
Proof.
  intros (Hr & Hp & _). unfold json_dumps. rewrite Hr.
  rewrite (dump_paragraphs_at h paras sentss (paragraphs c) Hp). cbn.
  by destruct c.
Qed.

Lemma paragraph_locs_at h l sents p :
  paragraph_at h l sents p -> paragraph_locs h l = l :: sents.
Proof. intros [Hl _]. unfold paragraph_locs. by rewrite Hl. Qed.

Lemma reachable_at h root paras sentss c x :
  chapter_at h root paras sentss c ->
  x ∈ reachable h root <-> x ∈ root :: paras ++ concat sentss.
Proof.
  intros (Hr & Hp & _). unfold reachable. rewrite Hr.
  rewrite !elem_of_cons. apply or_iff_compat_l.
  clear Hr. induction Hp as [|l sents p paras sentss ps Hl Hp IH].
  - done.
  - cbn [map concat app]. rewrite (paragraph_locs_at h l sents p Hl).
    cbn [app]. rewrite !elem_of_cons, !elem_of_app, IH, elem_of_app. tauto.
Qed.



(** *** The substitution at the end of a file name *)

Lemma append_cons c a b : String c a +:+ b = String c (a +:+ b).
Proof. reflexivity. Qed.

Lemma append_empty_r a : a +:+ "" = a.
Proof. induction a as [|c a IH]; [done |]. by rewrite append_cons, IH. Qed.

Lemma length_append a b :
  String.length (a +:+ b) = (String.length a + String.length b)%nat.
Proof. induction a as [|c a IH]; [done |]. rewrite append_cons. cbn. by rewrite IH. Qed.

Lemma literal_spec p : forall s e, literal p s = Some e -> s = p +:+ e.
Proof.
  induction p as [|a p IH]; intros s e; cbn [literal].
  - by intros [= ->].
  - destruct s as [|b s]; [done |].
    destruct (Ascii.eqb_spec a b) as [-> |]; [| done].
    intros H. apply IH in H. by rewrite H.
Qed.

Lemma literal_append p e : literal p (p +:+ e) = Some e.
Proof.
  induction p as [|a p IH]; [done |].
  rewrite append_cons. cbn [literal]. by rewrite Ascii.eqb_refl.
Qed.

Lemma ends_lf_append a b : b <> "" -> ends_lf (a +:+ b) = ends_lf b.
Proof.
  intros Hb. induction a as [|c a IH]; [done |].
  rewrite append_cons. cbn [ends_lf].
  destruct (a +:+ b) eqn:E; [| exact IH].
  destruct a; [| discriminate]. cbn in E. by subst.
Qed.

Lemma at_end_cases e : at_end e = true -> e = "" \/ e = String "010" "".
Proof.
  destruct e as [|c e]; [by left |].
  destruct e; [| by destruct c as [[] [] [] [] [] [] [] []]].
  intros H. right. f_equal.
  by destruct c as [[] [] [] [] [] [] [] []].
Qed.

Lemma re_sub_end_suffix pat repl prefix :
  pat <> "" -> ends_lf pat = false ->
  re_sub_end pat repl (prefix +:+ pat) = prefix +:+ repl.
Proof.
  intros Hne Hlf. induction prefix as [|c prefix IH].
  - cbn [String.append]. change ("" +:+ pat) with pat. change ("" +:+ repl) with repl.
    destruct pat as [|a pat]; [done |].
    cbn [re_sub_end]. unfold match_at_end.
    rewrite <- (append_empty_r (String a pat)) at 2.
    rewrite literal_append. cbn [at_end]. apply append_empty_r.
  - rewrite !append_cons. cbn [re_sub_end].
    destruct (match_at_end pat (String c (prefix +:+ pat))) as [e|] eqn:Hm.
    + exfalso. unfold match_at_end in Hm.
      destruct (literal pat _) as [e'|] eqn:Hl; [| done].
      destruct (at_end e') eqn:He; [| done].
      apply literal_spec in Hl. apply at_end_cases in He as [-> | ->].
      * apply (f_equal String.length) in Hl.
        rewrite append_empty_r in Hl. cbn [String.length] in Hl.
        rewrite length_append in Hl. lia.
      * apply (f_equal ends_lf) in Hl.
        rewrite <- append_cons in Hl.
        rewrite !ends_lf_append in Hl by done.
        cbn in Hl. congruence.
    + by rewrite IH.
Qed.

Lemma update_audio_suffix native tgt prefix :
  update_audio native tgt (prefix +:+ "_" +:+ native +:+ ".aac")
  = prefix +:+ "_" +:+ tgt +:+ ".aac".
Proof.
  unfold update_audio. apply re_sub_end_suffix; [done |].
  change ("_" +:+ native +:+ ".aac") with (String "_" (native +:+ ".aac")).
  rewrite <- (append_cons "_" native ".aac").
  by rewrite ends_lf_append.
Qed.

(** *** Updates in place *)

Lemma update_sentence_length f h l : length (update_sentence f h l) = length h.
Proof.
  unfold update_sentence. destruct (h !! l) as [[s| |]|]; try done.
  apply length_insert.
Qed.

Lemma update_sentence_other f h l x :
  x <> l -> update_sentence f h l !! x = h !! x.
Proof.
  intros Hx. unfold update_sentence. destruct (h !! l) as [[s| |]|]; try done.
  by apply list_lookup_insert_ne.
Qed.

Lemma update_sentence_at f h l s :
  sentence_at h l s -> sentence_at (update_sentence f h l) l (f s).
Proof.
  unfold sentence_at, update_sentence. intros Hl. rewrite Hl.
  apply list_lookup_insert_eq. by eapply lookup_lt_Some.
Qed.

Lemma update_sentences f sents : forall ss h,
  NoDup sents -> Forall2 (sentence_at h) sents ss ->
  let h' := foldl (update_sentence f) h sents in
  Forall2 (sentence_at h') sents (map f ss) /\
  length h' = length h /\
  (forall x, x ∉ sents -> h' !! x = h !! x).
Proof.
  induction sents as [|l sents IH]; intros ss h Hnd Hs.
  - apply Forall2_nil_inv_l in Hs as ->. cbn. split; [constructor | done].
  - apply Forall2_cons_inv_l in Hs as (s & ss' & Hl & Hs & ->).
    apply NoDup_cons in Hnd as [Hnotin Hnd].
    cbn [foldl map].
    assert (Hs1 : Forall2 (sentence_at (update_sentence f h l)) sents ss').
    { eapply sentences_at_frame; [| exact Hs].
      intros x Hx. apply update_sentence_other. by intros ->. }
    destruct (IH ss' (update_sentence f h l) Hnd Hs1) as (I1 & I2 & I3).
    split; [| split].
    + constructor; [| exact I1].
      unfold sentence_at. rewrite I3 by exact Hnotin.
      by apply update_sentence_at.
    + by rewrite I2, update_sentence_length.
    + intros x Hx. apply not_elem_of_cons in Hx as [Hxl Hx].
      rewrite I3 by exact Hx. by apply update_sentence_other.
Qed.

Lemma update_paragraphs f paras sentss ps : forall h,
  Forall3 (paragraph_at h) paras sentss ps ->
  NoDup (paras ++ concat sentss) ->
  let h' := foldl (visit_paragraph (update_sentence f)) h paras in
  Forall3 (paragraph_at h') paras sentss (map (map_paragraph f) ps) /\
  length h' = length h /\
  (forall x, x ∉ concat sentss -> h' !! x = h !! x).
Proof.
  intros h H. revert h H.
  induction paras as [|l paras IH] in sentss, ps |- *; intros h H Hnd.
  - inversion H; subst. cbn. split; [constructor | done].
  - inversion H as [|? sents p ? sentss' ps' Hp Hrest]; subst.
    cbn [foldl map concat].
    destruct Hp as [Hl Hs].
    change ((l :: paras) ++ concat (sents :: sentss'))
      with (l :: paras ++ sents ++ concat sentss') in Hnd.
    apply NoDup_cons in Hnd as [Hl_notin Hnd].
    apply NoDup_app in Hnd as (Nparas & Hdisj & Nrest).
    apply NoDup_app in Nrest as (Nsents & Hdisj2 & Nconcat).
    assert (Hvisit : visit_paragraph (update_sentence f) h l =
                     foldl (update_sentence f) h sents)
      by (unfold visit_paragraph; by rewrite Hl).
    cbn zeta. rewrite Hvisit.
    destruct (update_sentences f sents (sentences p) h Nsents Hs)
      as (U1 & U2 & U3).
    set (h1 := foldl (update_sentence f) h sents) in *.
    assert (Hrest1 : Forall3 (paragraph_at h1) paras sentss' ps').
    { eapply paragraphs_at_frame; [| exact Hrest].
      intros x Hx. apply U3. intros Hxs.
      apply elem_of_app in Hx as [Hx | Hx].
      - apply (Hdisj x Hx). apply elem_of_app. by left.
      - by apply (Hdisj2 x Hxs). }
    assert (Hnd1 : NoDup (paras ++ concat sentss')).
    { apply NoDup_app. split; [exact Nparas |]. split; [| exact Nconcat].
      intros x Hx Hx'. apply (Hdisj x Hx). apply elem_of_app. by right. }
    destruct (IH sentss' ps' h1 Hrest1 Hnd1) as (I1 & I2 & I3).
    split; [| split].
    + constructor; [| exact I1]. split.
      * cbn [map_paragraph paragraphID paragraphIndex].
        rewrite I3.
        -- rewrite U3; [exact Hl |]. intros Hx. apply Hl_notin.
           apply elem_of_app. right. apply elem_of_app. by left.
        -- intros Hx. apply Hl_notin.
           apply elem_of_app. right. apply elem_of_app. by right.
      * cbn [map_paragraph sentences].
        eapply sentences_at_frame; [| exact U1].
        intros x Hx. apply I3. intros Hx'. by apply (Hdisj2 x Hx).
    + by rewrite I2, U2.
    + intros x Hx. apply not_elem_of_app in Hx as [Hx1 Hx2].
      rewrite I3 by exact Hx2. by apply U3.
Qed.

Lemma for_sentences_ext visit1 visit2 h root :
  (forall h l, visit1 h l = visit2 h l) ->
  for_sentences visit1 h root = for_sentences visit2 h root.
Proof.
  intros Hv. unfold for_sentences.
  destruct (h !! root) as [[| |id lang number title paras]|]; try done.
  clear root. revert h. induction paras as [|l paras IH]; intros h; [done |].
  cbn [foldl].
  assert (Heq : forall sents h0, foldl visit1 h0 sents = foldl visit2 h0 sents).
  { induction sents as [|x sents IHs]; intros h0; [done |].
    cbn. by rewrite Hv, IHs. }
  unfold visit_paragraph at 2 4.
  destruct (h !! l) as [[|id' index sents|]|]; try apply IH.
  rewrite Heq. apply IH.
Qed.

Lemma for_sentences_update f h root paras sentss c :
  chapter_at h root paras sentss c ->
  let h' := for_sentences (update_sentence f) h root in
  chapter_at h' root paras sentss (map_document f c) /\
  length h' = length h /\
  (forall x, x ∉ concat sentss -> h' !! x = h !! x).
Proof.
  intros (Hr & Hp & Hnd). unfold for_sentences. rewrite Hr.
  apply NoDup_cons in Hnd as [Hroot Hnd'].
  destruct (update_paragraphs f paras sentss (paragraphs c) h Hp Hnd')
    as (U1 & U2 & U3).
  split; [| by split].
  split; [| split].
  - cbn. rewrite U3; [exact Hr |]. intros Hx. apply Hroot.
    apply elem_of_app. by right.
  - exact U1.
  - by apply NoDup_cons.
Qed.


Section Service.

Variable client : string -> string -> option string.
Variable language_map : string -> option string.

Lemma process_sentence_update h l native tgt :
  process_sentence client language_map h l native tgt =
  update_sentence (translate_sentence client language_map native tgt) h l.
Proof.
  unfold process_sentence, update_sentence, translate_sentence.
  destruct (h !! l) as [[s| |]|] eqn:Hl; try done.
  destruct (negb (truthy (strip (text s)))).
  { symmetry. by apply list_insert_id. }
  destruct (language_map tgt) as [lang|].
  2: { symmetry. by apply list_insert_id. }
  destruct (negb (truthy lang)).
  { symmetry. by apply list_insert_id. }
  rewrite list_lookup_insert_eq by (by eapply lookup_lt_Some).
  by rewrite list_insert_insert_eq.
Qed.

Lemma rewrite_audio_update h l native tgt :
  rewrite_audio native tgt h l =
  update_sentence
    (fun s => set_audioFile (update_audio native tgt (audioFile s)) s) h l.
Proof. reflexivity. Qed.

Lemma set_language_at h root paras sentss c v :
  chapter_at h root paras sentss c ->
  chapter_at (set_language h root v) root paras sentss (with_language v c) /\
  length (set_language h root v) = length h /\
  (forall x, x <> root -> set_language h root v !! x = h !! x).
Proof.
  intros (Hr & Hp & Hnd). unfold set_language. rewrite Hr.
  split; [| split].
  - split; [| split; [| exact Hnd]].
    + cbn. apply list_lookup_insert_eq. by eapply lookup_lt_Some.
    + eapply paragraphs_at_frame; [| exact Hp].
      intros x Hx. apply list_lookup_insert_ne.
      apply NoDup_cons in Hnd as [Hroot _]. by intros ->.
  - apply length_insert.
  - intros x Hx. by apply list_lookup_insert_ne.
Qed.

(** One turn of the loop over the targets, on a store [h] that holds some
    document [c] at [root]: the copy is built above [h], nothing of [h]
    changes, and the copy ends as the translated document. *)
Lemma translate_copy h c native tgt :
  let r := json_loads c h in
  let h4 :=
    for_sentences (rewrite_audio native tgt)
      (translate_content client language_map
         (set_language r.1 r.2 tgt) r.2 native tgt) r.2 in
  exists paras sentss,
    chapter_at h4 r.2 paras sentss
      (translated_document client language_map native tgt c) /\
    within (length h) (length h4) (r.2 :: paras ++ concat sentss) /\
    (length h <= length h4)%nat /\
    (forall x, (x < length h)%nat -> h4 !! x = h !! x).
Proof.
  destruct (json_loads_spec c h) as (ext & paras & sentss & Hext & Hat & Hin).
  destruct (json_loads c h) as [h1 root]. cbn [fst snd] in *. cbn zeta.
  exists paras, sentss.
  destruct (set_language_at h1 root paras sentss c tgt Hat) as (L1 & L2 & L3).
  set (h2 := set_language h1 root tgt) in *.
  unfold translate_content.
  rewrite (for_sentences_ext
             (fun h sentence =>
                process_sentence client language_map h sentence native tgt)
             (update_sentence (translate_sentence client language_map native tgt)))
    by (intros; apply process_sentence_update).
  destruct (for_sentences_update
              (translate_sentence client language_map native tgt)
              h2 root paras sentss _ L1) as (T1 & T2 & T3).
  set (h3 := for_sentences _ h2 root) in *.
  rewrite (for_sentences_ext (rewrite_audio native tgt)
             (update_sentence
                (fun s => set_audioFile (update_audio native tgt (audioFile s)) s)))
    by (intros; apply rewrite_audio_update).
  destruct (for_sentences_update
              (fun s => set_audioFile (update_audio native tgt (audioFile s)) s)
              h3 root paras sentss _ T1) as (A1 & A2 & A3).
  set (h4 := for_sentences _ h3 root) in *.
  assert (Hlen : length h4 = length h1) by congruence.
  assert (Hle : (length h <= length h1)%nat) by (rewrite Hext, length_app; lia).
  split; [| split; [| split]].
  - replace (translated_document client language_map native tgt c)
      with (map_document
              (fun s => set_audioFile (update_audio native tgt (audioFile s)) s)
              (map_document (translate_sentence client language_map native tgt)
                 (with_language tgt c))); [exact A1 |].
    unfold translated_document, map_document, map_paragraph, translated_sentence.
    cbn. f_equal. rewrite map_map. apply map_ext. intros p. cbn. f_equal.
    by rewrite map_map.
  - rewrite Hlen. exact Hin.
  - lia.
  - intros x Hx.
    assert (Hroot : x <> root).
    { apply Forall_cons in Hin as [Hroot _]. lia. }
    assert (Hsent : x ∉ concat sentss).
    { intros Hin'. apply Forall_cons in Hin as [_ Hin].
      apply Forall_app in Hin as [_ Hin].
      eapply Forall_forall in Hin; [| exact Hin']. lia. }
    rewrite A3, T3, L3 by done. rewrite Hext. apply lookup_app_l. lia.
Qed.


Lemma record_inv_frame h h' base file native t :
  (forall x, (x < length h)%nat -> h' !! x = h !! x) ->
  (length h <= length h')%nat ->
  record_inv client language_map h base file native t ->
  record_inv client language_map h' base file native t.
Proof.
  intros Hf Hle (paras & sentss & Hat & Hd & Hin).
  exists paras, sentss. split; [| split; [exact Hd |]].
  - eapply chapter_at_frame; [| exact Hat].
    intros x Hx. apply Hf. eapply Forall_forall in Hin; [| exact Hx]. lia.
  - eapply within_mono; [| | exact Hin]; lia.
Qed.

Lemma record_inv_reachable h base file native t x :
  record_inv client language_map h base file native t ->
  x ∈ reachable h (content t) -> (base <= x < length h)%nat.
Proof.
  intros (paras & sentss & Hat & _ & Hin) Hx.
  apply (reachable_at h _ paras sentss _ x Hat) in Hx.
  by eapply Forall_forall in Hin.
Qed.

Lemma record_inv_reachable_frame h h' base file native t x :
  (forall x, (x < length h)%nat -> h' !! x = h !! x) ->
  record_inv client language_map h base file native t ->
  x ∈ reachable h' (content t) <-> x ∈ reachable h (content t).
Proof.
  intros Hf (paras & sentss & Hat & _ & Hin).
  assert (Hat' : chapter_at h' (content t) paras sentss (dumped t)).
  { eapply chapter_at_frame; [| exact Hat].
    intros y Hy. apply Hf. eapply Forall_forall in Hin; [| exact Hy]. lia. }
  by rewrite (reachable_at h' _ paras sentss _ x Hat'),
             (reachable_at h _ paras sentss _ x Hat).
Qed.

Lemma separate_snoc h h' base file native out t :
  (forall x, (x < length h)%nat -> h' !! x = h !! x) ->
  Forall (record_inv client language_map h base file native) out ->
  separate h out ->
  (forall x, x ∈ reachable h' (content t) -> (length h <= x)%nat) ->
  separate h' (out ++ [t]).
Proof.
  intros Hf Hout Hsep Hnew i j t1 t2 Hi Hj Hij x Hx1 Hx2.
  apply lookup_app_Some in Hi as [Hi | [Hilen Hi]];
  apply lookup_app_Some in Hj as [Hj | [Hjlen Hj]].
  - pose proof (Forall_lookup_1 _ _ _ _ Hout Hi) as R1.
    pose proof (Forall_lookup_1 _ _ _ _ Hout Hj) as R2.
    apply (record_inv_reachable_frame h h' base file native t1 x Hf R1) in Hx1.
    apply (record_inv_reachable_frame h h' base file native t2 x Hf R2) in Hx2.
    by apply (Hsep i j t1 t2 Hi Hj Hij x).
  - pose proof (Forall_lookup_1 _ _ _ _ Hout Hi) as R1.
    apply (record_inv_reachable_frame h h' base file native t1 x Hf R1) in Hx1.
    apply (record_inv_reachable h base file native t1 x R1) in Hx1.
    apply list_lookup_singleton_Some in Hj as [_ <-].
    apply Hnew in Hx2. lia.
  - pose proof (Forall_lookup_1 _ _ _ _ Hout Hj) as R2.
    apply (record_inv_reachable_frame h h' base file native t2 x Hf R2) in Hx2.
    apply (record_inv_reachable h base file native t2 x R2) in Hx2.
    apply list_lookup_singleton_Some in Hi as [_ <-].
    apply Hnew in Hx1. lia.
  - apply list_lookup_singleton_Some in Hi as [Hi _].
    apply list_lookup_singleton_Some in Hj as [Hj _]. lia.
Qed.

Lemma targets_loop_spec native_content np ns file native base targets :
  forall out h,
  chapter_at h native_content np ns file ->
  within 0 base (native_content :: np ++ concat ns) ->
  (base <= length h)%nat ->
  Forall (record_inv client language_map h base file native) out ->
  separate h out ->
  exists h' out',
    targets_loop client language_map native_content native targets out h
      = Some (h', out') /\
    (forall x, (x < length h)%nat -> h' !! x = h !! x) /\
    (length h <= length h')%nat /\
    Forall (record_inv client language_map h' base file native) out' /\
    separate h' out' /\
    map target out' = map target out ++ targets.
Proof.
  induction targets as [|tgt targets IH]; intros out h Hnat Hnin Hbase Hout Hsep.
  - exists h, out. cbn. rewrite app_nil_r. by repeat split.
  - cbn [targets_loop].
    rewrite (json_dumps_at h native_content np ns file Hnat). cbn [mbind option_bind].
    destruct (translate_copy h file native tgt)
      as (paras & sentss & Hcopy & Hin & Hle & Hframe).
    destruct (json_loads file h) as [h1 copy]. cbn [fst snd] in *.
    set (h4 := for_sentences (rewrite_audio native tgt) _ copy) in *.
    rewrite (json_dumps_at h4 copy paras sentss _ Hcopy). cbn [mbind option_bind].
    set (t := {| target := tgt; content := copy;
                 dumped := translated_document client language_map native tgt file |}).
    assert (Hnat4 : chapter_at h4 native_content np ns file).
    { eapply chapter_at_frame; [| exact Hnat].
      intros x Hx. apply Hframe. eapply Forall_forall in Hnin; [| exact Hx]. lia. }
    assert (Ht : record_inv client language_map h4 base file native t).
    { exists paras, sentss. split; [exact Hcopy |]. split; [done |].
      eapply within_mono; [| | exact Hin]; lia. }
    assert (Hout4 : Forall (record_inv client language_map h4 base file native)
                      (out ++ [t])).
    { apply Forall_app. split; [| by constructor].
      eapply Forall_impl; [exact Hout |]. intros t0.
      by apply record_inv_frame. }
    assert (Hsep4 : separate h4 (out ++ [t])).
    { eapply separate_snoc; [exact Hframe | exact Hout | exact Hsep |].
      intros x Hx. apply (reachable_at h4 _ paras sentss _ x Hcopy) in Hx.
      eapply Forall_forall in Hin; [| exact Hx]. lia. }
    destruct (IH (out ++ [t]) h4 Hnat4 Hnin ltac:(lia) Hout4 Hsep4)
      as (h' & out' & Hrun & Hf' & Hle' & Hout' & Hsep' & Htargets).
    exists h', out'. split; [exact Hrun |].
    split; [| split; [lia |]].
    + intros x Hx. rewrite Hf' by lia. by apply Hframe.
    + split; [exact Hout' |]. split; [exact Hsep' |].
      rewrite Htargets, map_app. cbn. by rewrite <- app_assoc.
Qed.


Lemma process_json_file_spec file native targets h :
  exists h' native_content out np ns,
    process_json_file client language_map file native targets h
      = Some (h', native_content, out) /\
    (forall x, (x < length h)%nat -> h' !! x = h !! x) /\
    chapter_at h' native_content np ns file /\
    within 0 (length (json_loads file h).1) (native_content :: np ++ concat ns) /\
    Forall (record_inv client language_map h'
              (length (json_loads file h).1) file native) out /\
    separate h' out /\
    map target out = targets.
Proof.
  unfold process_json_file.
  destruct (json_loads_spec file h) as (ext & np & ns & Hext & Hat & Hin).
  destruct (json_loads file h) as [h0 native_content]. cbn [fst snd] in *.
  assert (Hin0 : within 0 (length h0) (native_content :: np ++ concat ns)).
  { eapply within_mono; [| | exact Hin]; lia. }
  destruct (targets_loop_spec native_content np ns file native (length h0)
              targets [] h0 Hat Hin0 ltac:(lia))
    as (h' & out & Hrun & Hf & Hle & Hout & Hsep & Htargets).
  { constructor. }
  { intros i j t1 t2 Hi. by rewrite lookup_nil in Hi. }
  rewrite Hrun. cbn [mbind option_bind fst snd].
  exists h', native_content, out, np, ns.
  split; [done |]. split; [| split; [| split; [exact Hin0 |]]].
  - intros x Hx.
    rewrite Hf by (rewrite Hext, length_app; lia).
    rewrite Hext. by apply lookup_app_l.
  - eapply chapter_at_frame; [| exact Hat].
    intros x Hx. apply Hf. eapply Forall_forall in Hin; [| exact Hx]. lia.
  - by repeat split.
Qed.

(** C8: producing the translated records changes no dictionary that existed
    before, and the native record is afterwards the document that was
    loaded, every [text] and [audioFile] included.  There is one record per
    target language, in order; its document carries the target language and
    is a function of the native document alone; its tree shares no
    dictionary with the native record or with the tree of another
    target. *)
Theorem C8_translation_leaves_native_untouched file native targets h :
  Forall (fun t => template_literal t = true) targets ->
  exists h' native_content out,
    process_json_file client language_map file native targets h
      = Some (h', native_content, out) /\
    (forall x, (x < length h)%nat -> h' !! x = h !! x) /\
    json_dumps h' native_content = Some file /\
    map target out = targets /\
    Forall (fun t =>
              json_dumps h' (content t) = Some (dumped t) /\
              language (dumped t) = target t /\
              dumped t = translated_document client language_map native
                           (target t) file) out /\
    Forall (fun t => forall x, x ∈ reachable h' (content t) ->
                               x ∉ reachable h' native_content) out /\
    separate h' out.
Proof.
  intros _.
  destruct (process_json_file_spec file native targets h)
    as (h' & native_content & out & np & ns & Hrun & Hf & Hat & Hin & Hout &
        Hsep & Htargets).
  exists h', native_content, out.
  split; [exact Hrun |]. split; [exact Hf |].
  split; [by eapply json_dumps_at |]. split; [exact Htargets |].
  split; [| split; [| exact Hsep]].
  - eapply Forall_impl; [exact Hout |].
    intros t (paras & sentss & Ht & Hd & _).
    split; [by eapply json_dumps_at |]. split; [by rewrite Hd | exact Hd].
  - eapply Forall_impl; [exact Hout |].
    intros t Ht x Hx Hx'.
    apply (record_inv_reachable h' _ file native t x Ht) in Hx.
    apply (reachable_at h' _ np ns _ x Hat) in Hx'.
    eapply Forall_forall in Hin; [| exact Hx']. lia.
Qed.

Lemma strip_blank_not_truthy s : strip s = "" <-> truthy (strip s) = false.
Proof. by destruct (strip s). Qed.

(** A code the map does not know and a code with an empty name are skipped
    alike: the sentence is left as it is. *)
Lemma translate_sentence_without_name native tgt s :
  language_map tgt = None \/ language_map tgt = Some "" ->
  translate_sentence client language_map native tgt s = s.
Proof.
  intros H. unfold translate_sentence.
  destruct (negb (truthy (strip (text s)))); [done |].
  by destruct H as [-> | ->].
Qed.


End Service.

(** *** The translator on the sample record *)

Lemma C8_witness :
  Forall (fun t => template_literal t = true) ["es-ES"; "fr-FR"] /\
  exists h' native_content out,
    process_json_file Samples.client Samples.language_map
      Samples.native_record "en-US" ["es-ES"; "fr-FR"] []
      = Some (h', native_content, out) /\
    json_dumps h' native_content = Some Samples.native_record /\
    map target out = ["es-ES"; "fr-FR"] /\
    separate h' out.
Proof.
  assert (Ht : Forall (fun t => template_literal t = true) ["es-ES"; "fr-FR"])
    by (repeat constructor).
  split; [exact Ht |].
  destruct (C8_translation_leaves_native_untouched Samples.client
              Samples.language_map Samples.native_record "en-US"
              ["es-ES"; "fr-FR"] [] Ht)
    as (h' & native_content & out & Hrun & _ & Hnative & Htargets & _ & _ & Hsep).
  exists h', native_content, out. auto.
Defined.


(** The translated documents of the sample record: the blank sentence keeps
    its text, the failed translation leaves an empty text, and a language
    the map does not know leaves the native texts. *)
Example sample_record_translated :
  option_map (fun r => map (fun t =>
    (language (dumped t),
     map (fun s => (text s, audioFile s)) (chapter_sentences (dumped t)))) r.2)
    (process_json_file Samples.client Samples.language_map
       Samples.native_record "en-US" ["es-ES"; "de-DE"] [])
  = Some
      [ ("es-ES",
         [ ("[Hello.]", "0000001_BOOKM_S1_C1_P1_S1_es-ES.aac");
           ("  ", "0000002_BOOKM_S1_C1_P1_S2_es-ES.aac");
           ("", "0000003_BOOKM_S1_C1_P1_S3_es-ES.aac") ]);
        ("de-DE",
         [ ("Hello.", "0000001_BOOKM_S1_C1_P1_S1_de-DE.aac");
           ("  ", "0000002_BOOKM_S1_C1_P1_S2_de-DE.aac");
           ("fail", "0000003_BOOKM_S1_C1_P1_S3_de-DE.aac") ]) ].
Proof. by vm_compute. Qed.


End TranslatorFacts.

(** * Further properties *)

(** ** The sentence segmentation engine *)

Module ParserMore.
Import Py Parser ParserFacts TranslatorFacts.

(** *** Stripping *)

Lemma rstrip_cons_nonspace c s :
  isspace c = false -> rstrip (String c s) = String c (rstrip s).
Proof. intros Hc. cbn [rstrip]. rewrite Hc. by destruct (rstrip s). Qed.

Lemma rstrip_idempotent s : rstrip (rstrip s) = rstrip s.
Proof.
  induction s as [|c s IH]; [done |].
  cbn [rstrip]. destruct (rstrip s) as [|d r] eqn:Hr.
  - destruct (isspace c) eqn:Hc; [done |]. cbn [rstrip]. by rewrite Hc.
  - cbn [rstrip]. cbn [rstrip] in IH. by rewrite IH.
Qed.

Lemma lstrip_head s :
  lstrip s = "" \/ exists c t, lstrip s = String c t /\ isspace c = false.
Proof.
  induction s as [|c s IH]; [by left |].
  cbn [lstrip]. destruct (isspace c) eqn:Hc; [exact IH |].
  right. by exists c, s.
Qed.

Lemma strip_head s :
  strip s = "" \/ exists c t, strip s = String c t /\ isspace c = false.
Proof.
  unfold strip. destruct (lstrip_head s) as [-> | (c & t & -> & Hc)]; [by left |].
  right. rewrite rstrip_cons_nonspace by done. by exists c, (rstrip t).
Qed.

Lemma strip_idempotent s : strip (strip s) = strip s.
Proof.
  destruct (strip_head s) as [-> | (c & t & Hs & Hc)]; [done |].
  rewrite Hs. unfold strip at 1. cbn [lstrip]. rewrite Hc.
  rewrite <- Hs. unfold strip. apply rstrip_idempotent.
Qed.

Section Engine.

Variable nlp_sents : string -> list string.
Variable uuid4 : nat -> string.

(** *** The texts of the sentence records *)

Lemma parse_sentences_stripped line :
  truthy (strip line) = true ->
  Forall (fun t => truthy (strip t) = true /\ strip (strip t) = strip t)
         (parse_sentences nlp_sents line).
Proof.
  intros Hline. unfold parse_sentences.
  destruct (filter _ _) as [|t0 ts] eqn:Hf.
  - constructor; [| constructor]. by rewrite !strip_idempotent.
  - rewrite <- Hf. apply Forall_forall. intros t Ht.
    apply list_elem_of_filter in Ht as [Ht Hin].
    apply list_elem_of_fmap in Hin as (x & -> & _).
    rewrite !strip_idempotent. split; [by destruct (strip x) | done].
Qed.

Lemma expected_from_texts lines : forall pre,
  Forall (fun rt => rt.2 <> "" /\ strip rt.2 = rt.2)
         (expected_from nlp_sents pre lines).
Proof.
  induction lines as [|raw lines IH]; intros pre; cbn [expected_from].
  - constructor.
  - apply Forall_app. split; [| apply IH].
    unfold expected_of_line, sentence_line.
    destruct (truthy (strip raw)) eqn:Ht; cbn [andb]; [| constructor].
    destruct (negb _); [| constructor].
    apply Forall_fmap.
    pose proof (parse_sentences_stripped (strip raw)) as Hp.
    rewrite strip_idempotent in Hp. specialize (Hp Ht).
    eapply Forall_impl; [exact Hp |].
    intros t [H1 H2]. cbn. split; [by destruct (strip t) | exact H2].
Qed.

(** Every sentence record has a text, and the text has no white space at
    either end. *)
Theorem sentence_texts_stripped_nonempty name data L B sn st :
  data <> "" ->
  exists c st',
    process_chapter_file nlp_sents uuid4 name (Some data) L B sn st
      = (Some c, st') /\
    Forall (fun s => text s <> "" /\ strip (text s) = text s)
           (chapter_sentences c).
Proof.
  intros Hdata.
  destruct (process_chapter_file_some nlp_sents uuid4 name data L B sn st Hdata)
    as (c & st' & Hrun & _ & _ & _ & _ & Hrefs & _).
  exists c, st'. split; [exact Hrun |]. cbn [fst] in Hrefs.
  fold (chapter_sentences c) in Hrefs.
  pose proof (expected_from_texts
                (concat (map splitlines (paragraphs_text_of (readlines data)))) [])
    as Hall.
  rewrite <- Hrefs in Hall. unfold refs_texts in Hall.
  rewrite Forall_fmap in Hall. exact Hall.
Qed.

(** *** The local sentence indices *)

Lemma line_loop_indices L B sn cn pi lines : forall cur st,
  map sentenceIndex
      (line_loop nlp_sents uuid4 L B sn cn pi lines cur [] st).1.2
  = concat (map (indices_of_line nlp_sents) lines).
Proof.
  induction lines as [|raw lines IH]; intros cur st; [done |].
  cbn [line_loop map concat]. unfold indices_of_line at 1, sentence_line.
  destruct (truthy (strip raw)) eqn:Ht; cbn [negb andb]; [| apply IH].
  destruct (ref_match (strip raw)) as [g|] eqn:Hm.
  - rewrite bool_decide_eq_true_2 by eauto. cbn [negb app]. apply IH.
  - rewrite bool_decide_eq_false_2 by (intros [? ?]; discriminate).
    cbn [negb].
    pose proof (sentence_loop_spec uuid4 L B sn cn pi cur
                  (parse_sentences nlp_sents (strip raw)) 1 st)
      as (_ & _ & Hi & _).
    destruct (sentence_loop _ _ _ _ _ _ _ _ _ _ _) as [a1 s1].
    cbn [fst snd] in *. rewrite line_loop_acc. cbn zeta. cbn [fst snd].
    by rewrite map_app, Hi, IH.
Qed.

Lemma indices_of_block_nil L B sn cn pi block cur st :
  (line_loop nlp_sents uuid4 L B sn cn pi (splitlines block) cur [] st).1.2 = []
  <-> indices_of_block nlp_sents block = [].
Proof.
  unfold indices_of_block.
  rewrite <- (line_loop_indices L B sn cn pi (splitlines block) cur st).
  split; [by intros -> |]. by destruct ((_).1.2).
Qed.

Lemma paragraph_loop_indices L B sn cn blocks : forall idx cur st,
  map (fun p => map sentenceIndex (sentences p))
      (paragraph_loop nlp_sents uuid4 L B sn cn idx blocks cur [] st).1
  = filter (fun l => l <> [])
           (map (indices_of_block nlp_sents) blocks).
Proof.
  induction blocks as [|b blocks IH]; intros idx cur st; [done |].
  cbn [paragraph_loop map].
  pose proof (line_loop_indices L B sn cn idx (splitlines b) cur (draw st)) as Hi.
  fold (indices_of_block nlp_sents b) in Hi.
  destruct (line_loop _ _ _ _ _ _ _ _ _ _ _) as [[cur' sents] st2].
  cbn [fst snd] in Hi.
  rewrite paragraph_loop_acc. cbn zeta. cbn [fst snd].
  rewrite map_app, IH. unfold append_if_sentences. cbn [sentences].
  destruct sents as [|s0 sents'].
  - cbn in Hi. rewrite <- Hi. by rewrite filter_cons_False by auto.
  - rewrite filter_cons_True by (rewrite <- Hi; done).
    rewrite <- Hi. reflexivity.
Qed.

(** Within a paragraph the local index restarts at 1 on every line handed
    to the sentence detector: the indices of a paragraph are, line by line,
    1 to the number of sentences of the line. *)
Theorem sentence_index_restarts_per_line name data L B sn st :
  data <> "" ->
  exists c st',
    process_chapter_file nlp_sents uuid4 name (Some data) L B sn st
      = (Some c, st') /\
    map (fun p => map sentenceIndex (sentences p)) (paragraphs c) =
      filter (fun l => l <> [])
             (map (indices_of_block nlp_sents)
                  (paragraphs_text_of (readlines data))).
Proof.
  intros Hdata. unfold process_chapter_file.
  destruct (readlines data) as [|l0 ls] eqn:Hl.
  { apply readlines_nil in Hl. done. }
  pose proof (paragraph_loop_indices L B sn (chapter_number_of name)
                (paragraphs_text_of (l0 :: ls)) 1 "" (draw st)) as Hi.
  destruct (paragraph_loop _ _ _ _ _ _ _ _ _ _ _) as [paras st2].
  eexists _, _. split; [reflexivity |]. exact Hi.
Qed.

End Engine.

Lemma sentence_texts_witness :
  Samples.two_paragraphs <> "" /\
  exists c st',
    process_chapter_file Samples.nlp_sents Samples.uuid4 "chapter3.txt"
      (Some Samples.two_paragraphs) "en-US" "BOOKM" 1 initial_state
      = (Some c, st') /\
    Forall (fun s => text s <> "" /\ strip (text s) = text s)
           (chapter_sentences c).
Proof.
  assert (Hne : Samples.two_paragraphs <> "") by (vm_compute; discriminate).
  split; [exact Hne |].
  exact (sentence_texts_stripped_nonempty Samples.nlp_sents Samples.uuid4
           "chapter3.txt" Samples.two_paragraphs "en-US" "BOOKM" 1
           initial_state Hne).
Defined.

Lemma sentence_index_witness :
  Samples.carried <> "" /\
  exists c st',
    process_chapter_file Samples.nlp_sents Samples.uuid4 "chapter1.txt"
      (Some Samples.carried) "en-US" "BOOKM" 1 initial_state = (Some c, st') /\
    map (fun p => map sentenceIndex (sentences p)) (paragraphs c)
      = [[1; 1]; [1; 1]].
Proof.
  assert (Hne : Samples.carried <> "") by (vm_compute; discriminate).
  split; [exact Hne |].
  destruct (sentence_index_restarts_per_line Samples.nlp_sents Samples.uuid4
              "chapter1.txt" Samples.carried "en-US" "BOOKM" 1 initial_state Hne)
    as (c & st' & Hrun & Hi).
  exists c, st'. split; [exact Hrun |]. rewrite Hi. vm_compute. reflexivity.
Defined.

(** *** The identifiers *)

Lemma drawn_between_nil a b : drawn_between a b [].
Proof. split; constructor. Qed.

Lemma drawn_between_app a b c ks1 ks2 :
  drawn_between a b ks1 -> drawn_between b c ks2 ->
  (a <= b)%nat -> (b <= c)%nat ->
  drawn_between a c (ks1 ++ ks2).
Proof.
  intros [N1 F1] [N2 F2] Hab Hbc. split.
  - apply NoDup_app. split; [exact N1 |]. split; [| exact N2].
    intros x Hx Hx'.
    eapply Forall_forall in F1; [| exact Hx].
    eapply Forall_forall in F2; [| exact Hx']. lia.
  - apply Forall_app. split.
    + eapply Forall_impl; [exact F1 |]. intros k Hk. cbn in *. lia.
    + eapply Forall_impl; [exact F2 |]. intros k Hk. cbn in *. lia.
Qed.

Lemma drawn_between_seq a n : drawn_between a (a + n) (seq a n).
Proof.
  split; [apply NoDup_seq |].
  apply Forall_forall. intros k Hk. apply elem_of_seq in Hk. lia.
Qed.

Lemma drawn_between_cons a b ks :
  drawn_between (S a) b ks -> (a < b)%nat -> drawn_between a b (a :: ks).
Proof.
  intros Hks Hab.
  apply (drawn_between_app a (S a) b [a] ks); [| exact Hks | lia | lia].
  split; [apply NoDup_singleton |]. constructor; [lia | constructor].
Qed.

Section Identifiers.

Variable nlp_sents : string -> list string.
Variable uuid4 : nat -> string.

Lemma sentence_loop_ids L B sn cn pi cur texts : forall idx st,
  let r := sentence_loop uuid4 L B sn cn pi cur idx texts [] st in
  map sentenceID r.1 = map uuid4 (seq (uuids_drawn st) (length texts)) /\
  uuids_drawn r.2 = (uuids_drawn st + length texts)%nat.
Proof.
  induction texts as [|t texts IH]; intros idx st.
  - cbn. split; [done | lia].
  - cbn [sentence_loop]. rewrite sentence_loop_acc.
    destruct (IH (idx + 1) (increment (draw st))) as [Hi Hd].
    cbn [fst snd app map sentenceID length seq uuids_drawn increment draw] in *.
    split; [by rewrite Hi | rewrite Hd; lia].
Qed.

Lemma line_loop_ids L B sn cn pi lines : forall cur st,
  let r := line_loop nlp_sents uuid4 L B sn cn pi lines cur [] st in
  map sentenceID r.1.2 = map uuid4 (seq (uuids_drawn st) (length r.1.2)) /\
  uuids_drawn r.2 = (uuids_drawn st + length r.1.2)%nat.
Proof.
  induction lines as [|raw lines IH]; intros cur st.
  - cbn. split; [done | lia].
  - cbn [line_loop].
    destruct (negb (truthy (strip raw))); [apply IH |].
    destruct (ref_match (strip raw)); [apply IH |].
    pose proof (sentence_loop_ids L B sn cn pi cur
                  (parse_sentences nlp_sents (strip raw)) 1 st) as [Hi Hd].
    destruct (sentence_loop _ _ _ _ _ _ _ _ _ _ _) as [a1 s1].
    cbn [fst snd] in *. rewrite line_loop_acc. cbn zeta. cbn [fst snd].
    destruct (IH cur s1) as [Ii Id].
    assert (Hlen : length a1 = length (parse_sentences nlp_sents (strip raw))).
    { rewrite <- (length_map sentenceID a1), Hi, length_map, length_seq. done. }
    rewrite map_app, length_app, seq_app, map_app, Hi, Ii, Id, Hd, Hlen.
    split; [done | lia].
Qed.

Lemma paragraph_loop_ids L B sn cn blocks : forall idx cur st,
  let r := paragraph_loop nlp_sents uuid4 L B sn cn idx blocks cur [] st in
  (uuids_drawn st <= uuids_drawn r.2)%nat /\
  exists ks,
    concat (map paragraph_ids r.1) = map uuid4 ks /\
    drawn_between (uuids_drawn st) (uuids_drawn r.2) ks.
Proof.
  induction blocks as [|b blocks IH]; intros idx cur st.
  - cbn. split; [lia |]. exists []. split; [done | apply drawn_between_nil].
  - cbn [paragraph_loop].
    pose proof (line_loop_ids L B sn cn idx (splitlines b) cur (draw st))
      as [Hi Hd].
    destruct (line_loop _ _ _ _ _ _ _ _ _ _ _) as [[cur' sents] st2].
    cbn [fst snd draw uuids_drawn] in *.
    rewrite paragraph_loop_acc. cbn zeta. cbn [fst snd].
    destruct (IH (idx + 1) cur' st2) as (Hle & ks & Hks & Hbetween).
    split; [lia |].
    unfold append_if_sentences. cbn [sentences].
    destruct sents as [|s0 sents'].
    + exists ks. split; [exact Hks |].
      destruct Hbetween as [N F]. split; [exact N |].
      eapply Forall_impl; [exact F |]. intros k Hk. cbn in *. lia.
    + set (sents := s0 :: sents') in *.
      exists (uuids_drawn st :: seq (S (uuids_drawn st)) (length sents) ++ ks).
      split.
      * cbn [app map concat]. unfold paragraph_ids at 1.
        cbn [paragraphID sentences app map].
        by rewrite map_app, Hi, Hks.
      * apply drawn_between_cons; [| lia].
        eapply drawn_between_app;
          [apply drawn_between_seq | | lia | lia].
        by rewrite <- Hd.
Qed.

Lemma process_chapter_file_ids name contents L B sn st :
  let r := process_chapter_file nlp_sents uuid4 name contents L B sn st in
  (uuids_drawn st <= uuids_drawn r.2)%nat /\
  exists ks,
    from_option chapter_ids [] r.1 = map uuid4 ks /\
    drawn_between (uuids_drawn st) (uuids_drawn r.2) ks.
Proof.
  unfold process_chapter_file.
  destruct contents as [data|];
    [| cbn; split; [lia | exists []; split; [done | apply drawn_between_nil]]].
  destruct (readlines data) as [|l0 ls];
    [cbn; split; [lia | exists []; split; [done | apply drawn_between_nil]] |].
  pose proof (paragraph_loop_ids L B sn (chapter_number_of name)
                (paragraphs_text_of (l0 :: ls)) 1 "" (draw st))
    as (Hle & ks & Hks & Hbetween).
  destruct (paragraph_loop _ _ _ _ _ _ _ _ _ _ _) as [paras st2].
  cbn [fst snd draw uuids_drawn from_option] in *.
  split; [lia |].
  exists (uuids_drawn st :: ks). split.
  - unfold chapter_ids. cbn. by rewrite Hks.
  - apply drawn_between_cons; [exact Hbetween | lia].
Qed.

Lemma chapter_files_loop_ids dflt L B chapter_files : forall st,
  let r := chapter_files_loop nlp_sents uuid4 dflt L B chapter_files [] st in
  (uuids_drawn st <= uuids_drawn r.2)%nat /\
  exists ks,
    run_ids r.1 = map uuid4 ks /\
    drawn_between (uuids_drawn st) (uuids_drawn r.2) ks.
Proof.
  induction chapter_files as [|f fs IH]; intros st; cbn [chapter_files_loop].
  - cbn. split; [lia |]. exists []. split; [done | apply drawn_between_nil].
  - destruct (if dflt then _ else _) as [folder sn].
    pose proof (process_chapter_file_ids (name f) (contents f) L B sn st)
      as (Hle & ks & Hks & Hbetween).
    destruct (process_chapter_file _ _ _ _ _ _ _ _) as [[c|] st'];
      cbn [fst snd from_option] in *.
    + rewrite chapter_files_loop_acc. cbn zeta. cbn [fst snd app].
      destruct (IH st') as (Hle' & ks' & Hks' & Hbetween').
      split; [lia |]. exists (ks ++ ks'). split.
      * unfold run_ids in *. cbn [map concat snd].
        by rewrite map_app, Hks, Hks'.
      * eapply drawn_between_app; [exact Hbetween | exact Hbetween' | lia | lia].
    + destruct (IH st') as (Hle' & ks' & Hks' & Hbetween').
      split; [lia |]. exists ks'. split; [exact Hks' |].
      destruct Hbetween' as [N F]. split; [exact N |].
      eapply Forall_impl; [exact F |]. intros k Hk. cbn in *. lia.
Qed.

(** When different draws give different identifiers, the chapter, paragraph
    and sentence identifiers of the records of a run are all different. *)
Theorem identifiers_of_a_run_distinct base_input_dir L B :
  Inj (=) (=) uuid4 ->
  NoDup (run_ids
           (process_all_chapter_files nlp_sents uuid4 base_input_dir L B).1).
Proof.
  intros Hinj. unfold process_all_chapter_files.
  destruct (chapter_files_loop_ids
              (match filter (fun d => numbered_prefix d) (dirs base_input_dir)
               with [] => true | _ :: _ => false end)
              L B (sorted (rglob_chapters base_input_dir)) initial_state)
    as (_ & ks & Hks & [Hnd _]).
  rewrite Hks. by apply NoDup_fmap_2.
Qed.

End Identifiers.

Lemma sample_uuid4_inj : Inj (=) (=) Samples.uuid4.
Proof.
  intros a b H. unfold Samples.uuid4 in H.
  apply String.app_inj in H. apply pretty_Z_inj in H. lia.
Defined.

Lemma identifiers_witness :
  Inj (=) (=) Samples.uuid4 /\
  NoDup (run_ids
           (process_all_chapter_files Samples.nlp_sents Samples.uuid4
              Samples.two_chapters "en-US" "BOOKM").1).
Proof.
  split; [exact sample_uuid4_inj |].
  exact (identifiers_of_a_run_distinct Samples.nlp_sents Samples.uuid4
           Samples.two_chapters "en-US" "BOOKM" sample_uuid4_inj).
Defined.

(** *** What is saved *)

Section Saved.

Variable nlp_sents : string -> list string.
Variable uuid4 : nat -> string.

Lemma process_chapter_file_readable f L B sn st :
  match (process_chapter_file nlp_sents uuid4 (name f) (contents f) L B sn st).1
  with
  | Some c => readable f = true /\ language c = L /\
              chapterNumber c = chapter_number_of (name f)
  | None => readable f = false
  end.
Proof.
  unfold readable. destruct (contents f) as [data|]; [| done].
  destruct (decide (data = "")) as [-> | Hne]; [done |].
  destruct (process_chapter_file_some nlp_sents uuid4 (name f) data L B sn st Hne)
    as (c & st' & -> & HL & Hn & _).
  cbn. by destruct data.
Qed.

Lemma chapter_files_loop_saved dflt L B chapter_files : forall st,
  map (fun r => (r.1, chapterNumber r.2, language r.2))
      (chapter_files_loop nlp_sents uuid4 dflt L B chapter_files [] st).1 =
  map (fun f => (output_path dflt L B f, chapter_number_of (name f), L))
      (filter (fun f => readable f) chapter_files).
Proof.
  induction chapter_files as [|f fs IH]; intros st; [done |].
  cbn [chapter_files_loop].
  pose proof (process_chapter_file_readable f L B (subbook_of dflt f).2 st) as Hr.
  change (if dflt then ("1-Default", 1) else get_subbook_info f)
    with (subbook_of dflt f).
  destruct (subbook_of dflt f) as [folder sn] eqn:Esb. cbn [fst snd] in *.
  destruct (process_chapter_file _ _ _ _ _ _ _ _) as [[c|] st'];
    cbn [fst] in Hr.
  - destruct Hr as (Hread & HL & Hn).
    rewrite chapter_files_loop_acc. cbn zeta. cbn [fst snd app].
    rewrite filter_cons_True by (by rewrite Hread).
    cbn [map fst snd]. rewrite IH, HL, Hn.
    f_equal. unfold output_path, output_filename. by rewrite Esb.
  - rewrite filter_cons_False by (rewrite Hr; auto). apply IH.
Qed.

Lemma insert_sorted_perm f l : insert_sorted f l ≡ₚ f :: l.
Proof.
  induction l as [|g l IH]; [done |].
  cbn [insert_sorted]. destruct (path_lt g f); [| done].
  rewrite IH. apply Permutation_swap.
Qed.

Lemma sorted_perm l : sorted l ≡ₚ l.
Proof.
  induction l as [|f l IH]; [done |].
  cbn. rewrite insert_sorted_perm. by rewrite IH.
Qed.

(** A run saves one record for every chapter file it finds that can be read
    and is not empty, and no other; the record carries the chapter number
    of the file name and the language of the run, and the path it is saved
    to is the one derived from the file. *)
Theorem one_record_per_readable_chapter_file base_input_dir L B :
  let dflt := match filter (fun d => numbered_prefix d) (dirs base_input_dir)
              with [] => true | _ :: _ => false end in
  map (fun r => (r.1, chapterNumber r.2, language r.2))
      (process_all_chapter_files nlp_sents uuid4 base_input_dir L B).1
  ≡ₚ
  map (fun f => (output_path dflt L B f, chapter_number_of (name f), L))
      (filter (fun f => readable f) (rglob_chapters base_input_dir)).
Proof.
  cbn zeta. unfold process_all_chapter_files.
  rewrite chapter_files_loop_saved.
  apply fmap_Permutation, filter_Permutation, sorted_perm.
Qed.

End Saved.

(** *** Numbers in file and folder names *)

Lemma append_assoc a b c : (a +:+ b) +:+ c = a +:+ b +:+ c.
Proof.
  induction a as [|x a IH]; [done |]. by rewrite !append_cons, IH.
Qed.

Lemma literal_ci_append p e : literal_ci p (p +:+ e) = Some e.
Proof.
  induction p as [|a p IH]; [done |].
  rewrite append_cons. cbn [literal_ci]. by rewrite Ascii.eqb_refl.
Qed.

Lemma pretty_N_go_append x : forall s,
  pretty_N_go x s = pretty_N_go x "" +:+ s.
Proof.
  induction (N.lt_wf_0 x) as [x _ IH]; intros s.
  assert (x = 0 \/ 0 < x)%N as [-> | Hx] by lia.
  - by rewrite !pretty_N_go_0.
  - rewrite !(pretty_N_go_step x) by done.
    assert (Hlt : (x `div` 10 < x)%N) by (apply N.div_lt; lia).
    rewrite (IH _ Hlt (String _ s)), (IH _ Hlt (String _ "")).
    by rewrite append_assoc.
Qed.

Lemma pretty_N_char_digit m :
  (m < 10)%N ->
  isdigit (pretty_N_char m) = true /\
  Z.of_N (N_of_ascii (pretty_N_char m)) - 48 = Z.of_N m.
Proof.
  intros Hm.
  assert (m = 0 \/ m = 1 \/ m = 2 \/ m = 3 \/ m = 4 \/ m = 5 \/ m = 6 \/
          m = 7 \/ m = 8 \/ m = 9)%N as H by lia.
  repeat destruct H as [-> | H]; try subst m; by vm_compute.
Qed.

Lemma int_of_append a : forall acc b,
  int_of acc (a +:+ b) = int_of (int_of acc a) b.
Proof.
  induction a as [|c a IH]; intros acc b; [done |].
  rewrite append_cons. cbn [int_of]. apply IH.
Qed.

Lemma all_digits_append a b :
  all_digits (a +:+ b) = all_digits a && all_digits b.
Proof.
  induction a as [|c a IH]; [done |].
  rewrite append_cons. cbn [all_digits]. rewrite IH. by rewrite andb_assoc.
Qed.

Lemma pretty_N_go_digits x :
  all_digits (pretty_N_go x "") = true /\
  int_of 0 (pretty_N_go x "") = Z.of_N x.
Proof.
  induction (N.lt_wf_0 x) as [x _ IH].
  assert (x = 0 \/ 0 < x)%N as [-> | Hx] by lia.
  - by rewrite pretty_N_go_0.
  - rewrite (pretty_N_go_step x) by done.
    assert (Hlt : (x `div` 10 < x)%N) by (apply N.div_lt; lia).
    destruct (IH _ Hlt) as [Hd Hi].
    destruct (pretty_N_char_digit (x `mod` 10)) as [Hc Hv].
    { apply N.mod_lt. lia. }
    rewrite pretty_N_go_append. split.
    + rewrite all_digits_append, Hd. cbn. by rewrite Hc.
    + rewrite int_of_append, Hi. cbn [int_of]. unfold int_go. rewrite Hv.
      rewrite (N.div_mod x 10) at 3 by lia. lia.
Qed.

(** The decimal string of a number from 0 on: digits only, at least one,
    and [int] reads the number back. *)
Lemma str_digits n :
  0 <= n -> all_digits (str n) = true /\ truthy (str n) = true /\ int (str n) = n.
Proof.
  intros Hn. unfold str, pretty, pretty_Z.
  destruct n as [|p|p]; [done | | lia].
  unfold pretty, pretty_positive, pretty, pretty_N.
  destruct (decide (N.pos p = 0%N)) as [|_]; [done |].
  destruct (pretty_N_go_digits (N.pos p)) as [Hd Hi].
  split; [exact Hd |]. split; [| exact Hi].
  destruct (pretty_N_go (N.pos p) "") eqn:E; [| done].
  cbn in Hi. lia.
Qed.

Lemma span_digits_append d rest :
  all_digits d = true ->
  match rest with String c _ => isdigit c = false | EmptyString => True end ->
  span_digits (d +:+ rest) = (d, rest).
Proof.
  intros Hd Hrest. induction d as [|c d IH].
  - change ("" +:+ rest) with rest. destruct rest as [|c r]; [done |].
    cbn [span_digits]. by rewrite Hrest.
  - cbn [all_digits] in Hd. apply andb_prop in Hd as [Hc Hd].
    rewrite append_cons. cbn [span_digits]. rewrite Hc, (IH Hd). done.
Qed.

(** The chapter number the engine reads from a file name is the number the
    extractor put into it. *)
Theorem chapter_number_of_extracted_name n :
  0 <= n -> chapter_number_of (Extractor.chapter_file_name n) = n.
Proof.
  intros Hn. destruct (str_digits n Hn) as (Hd & Ht & Hi).
  unfold chapter_number_of, Extractor.chapter_file_name.
  assert (Hhere : chapter_txt_here ("chapter" +:+ str n +:+ ".txt") = Some n).
  { unfold chapter_txt_here. rewrite literal_ci_append. cbn [mbind option_bind].
    rewrite (span_digits_append (str n) ".txt" Hd) by reflexivity.
    rewrite Ht. by rewrite Hi. }
  change ("chapter" +:+ str n +:+ ".txt")
    with (String "c" ("hapter" +:+ str n +:+ ".txt")) in *.
  cbn [chapter_num_search]. by rewrite Hhere.
Qed.

Lemma span_line_one_line t : one_line t = true -> span_line t = (t, "").
Proof.
  induction t as [|c t IH]; [done |].
  cbn [one_line span_line]. intros H. apply andb_prop in H as [Hc Ht].
  destruct (c =? "010")%char; [done |]. by rewrite (IH Ht).
Qed.

Lemma subbook_folder_match_extracted k title :
  0 <= k -> title <> "" -> one_line title = true ->
  subbook_folder_match (str k +:+ "-" +:+ title) = Some k.
Proof.
  intros Hk Hne Hline. destruct (str_digits k Hk) as (Hd & Ht & Hi).
  unfold subbook_folder_match.
  rewrite (span_digits_append (str k) ("-" +:+ title) Hd) by reflexivity.
  rewrite Ht.
  change ("-" +:+ title) with (String "-" title). cbn [literal mbind option_bind].
  cbn. rewrite (span_line_one_line title Hline).
  destruct title; [done |]. cbn. by rewrite Hi.
Qed.

(** For a chapter file inside a folder [k-title], as the extractor names the
    folder of its [k]-th subbook, the engine finds the subbook number [k],
    when the title is not empty and has no line feed. *)
Theorem subbook_info_of_extracted_folder k title file rest data :
  0 <= k -> title <> "" -> one_line title = true ->
  get_subbook_info
    {| parts := (str k +:+ "-" +:+ title) :: file :: rest; contents := data |}
  = (str k +:+ "-" +:+ title, k).
Proof.
  intros Hk Hne Hline. unfold get_subbook_info. cbn [parts].
  by rewrite subbook_folder_match_extracted.
Qed.

Lemma chapter_number_witness :
  0 <= 12 /\ chapter_number_of (Extractor.chapter_file_name 12) = 12.
Proof.
  assert (H : 0 <= 12) by lia.
  split; [exact H | exact (chapter_number_of_extracted_name 12 H)].
Defined.

Lemma subbook_number_witness :
  0 <= 10 /\ "Part Ten" <> "" /\ one_line "Part Ten" = true /\
  get_subbook_info
    {| parts := [str 10 +:+ "-" +:+ "Part Ten"; "chapter1.txt"];
       contents := None |}
  = (str 10 +:+ "-" +:+ "Part Ten", 10).
Proof.
  assert (H : 0 <= 10) by lia.
  assert (H1 : "Part Ten" <> "") by discriminate.
  assert (H2 : one_line "Part Ten" = true) by reflexivity.
  split; [exact H |]. split; [exact H1 |]. split; [exact H2 |].
  exact (subbook_info_of_extracted_folder 10 "Part Ten" "chapter1.txt" []
           None H H1 H2).
Defined.

(** *** Reference markers *)

Lemma plain_head c r :
  plain (String c r) = true ->
  isspace c = false /\ (c =? "-")%char = false /\ (c =? "010")%char = false /\
  plain r = true.
Proof.
  cbn [plain]. unfold plain_char. intros H.
  apply andb_prop in H as [H Hr]. apply andb_prop in H as [Hs Hd].
  apply negb_true_iff in Hs, Hd. repeat split; try done.
  destruct (Ascii.eqb_spec c "010") as [-> |]; [done | done].
Qed.

Lemma lazy_dots_plain r :
  plain r = true -> lazy_dots (r +:+ " -->") = Some r.
Proof.
  induction r as [|c r IH]; [done |].
  intros H. apply plain_head in H as (Hs & Hd & Hl & Hr).
  rewrite append_cons. cbn [lazy_dots].
  assert (Hclose : marker_close (String c (r +:+ " -->")) = None).
  { unfold marker_close. cbn [ws_star]. rewrite Hs.
    change "-->" with (String "-" "->"). cbn [literal].
    rewrite Ascii.eqb_sym. by rewrite Hd. }
  rewrite Hclose, Hl. by rewrite (IH Hr).
Qed.

Lemma lstrip_nonspace c s : isspace c = false -> lstrip (String c s) = String c s.
Proof. intros H. cbn. by rewrite H. Qed.

Lemma rstrip_append a b :
  rstrip b <> "" -> rstrip (a +:+ b) = a +:+ rstrip b.
Proof.
  intros Hb. induction a as [|c a IH]; [done |].
  rewrite !append_cons. cbn [rstrip]. rewrite IH.
  destruct (a +:+ rstrip b) eqn:E; [| done].
  destruct a; [| discriminate]. cbn in E. done.
Qed.

Lemma strip_plain r : plain r = true -> strip r = r.
Proof.
  intros H. unfold strip.
  assert (Hl : lstrip r = r).
  { destruct r as [|c r]; [done |].
    apply plain_head in H as (Hs & _). by apply lstrip_nonspace. }
  rewrite Hl. clear Hl. induction r as [|c r IH]; [done |].
  apply plain_head in H as (Hs & _ & _ & Hr).
  rewrite rstrip_cons_nonspace by done. by rewrite IH.
Qed.

(** A marker line [<!-- REF: r -->], as the reference inserter writes it,
    sets the current reference to [r], for a locator [r] of one or more
    characters none of which is white space or a dash. *)
Theorem marker_of_written_reference r :
  r <> "" -> plain r = true ->
  marker_of ("<!-- REF: " +:+ r +:+ " -->") = Some r.
Proof.
  intros Hne Hplain.
  assert (Hstrip : strip ("<!-- REF: " +:+ r +:+ " -->")
                   = "<!-- REF: " +:+ r +:+ " -->").
  { unfold strip.
    change ("<!-- REF: " +:+ r +:+ " -->")
      with (String "<" ("!-- REF: " +:+ r +:+ " -->")).
    rewrite lstrip_nonspace by reflexivity.
    change (String "<" ("!-- REF: " +:+ r +:+ " -->"))
      with ("<!-- REF: " +:+ r +:+ " -->").
    rewrite <- (append_assoc "<!-- REF: " r " -->").
    by rewrite rstrip_append. }
  assert (Hmatch : ref_match ("<!-- REF: " +:+ r +:+ " -->") = Some r).
  { unfold ref_match, marker_match.
    change ("<!-- REF: " +:+ r +:+ " -->")
      with ("<!--" +:+ String " " ("REF:" +:+ String " " (r +:+ " -->"))).
    rewrite literal_ci_append. cbn [mbind option_bind].
    assert (Hgroup : ws_star lazy_group (String " " (r +:+ " -->")) = Some r).
    { destruct r as [|c r']; [done |].
      apply plain_head in Hplain as (Hs & _ & Hl & Hr).
      cbn [ws_star isspace]. rewrite append_cons. cbn [ws_star]. rewrite Hs.
      cbn [lazy_group]. rewrite Hl. by rewrite (lazy_dots_plain r' Hr). }
    cbn [ws_star isspace].
    change ("REF" +:+ ":") with "REF:".
    change (ws_star
              (fun s1 => literal_ci "REF:" s1 ≫= ws_star lazy_group)
              ("REF:" +:+ String " " (r +:+ " -->")))
      with (literal_ci "REF:" ("REF:" +:+ String " " (r +:+ " -->"))
              ≫= ws_star lazy_group).
    rewrite literal_ci_append. cbn [mbind option_bind]. by rewrite Hgroup. }
  unfold marker_of. rewrite Hstrip.
  assert (Ht : truthy ("<!-- REF: " +:+ r +:+ " -->") = true) by reflexivity.
  rewrite Ht, Hmatch. cbn. by rewrite strip_plain.
Qed.

Lemma marker_of_witness :
  "12:3" <> "" /\ plain "12:3" = true /\
  marker_of ("<!-- REF: " +:+ "12:3" +:+ " -->") = Some "12:3".
Proof.
  assert (H1 : "12:3" <> "") by discriminate.
  assert (H2 : plain "12:3" = true) by reflexivity.
  split; [exact H1 |]. split; [exact H2 |].
  exact (marker_of_written_reference "12:3" H1 H2).
Defined.

(** *** The audio file name under translation *)

(** The translator's substitution turns the file name the engine derived
    for the native language into the file name it derives, from the same
    coordinates, for the target language. *)
Theorem update_audio_of_created_name i B sn cn pn sx native tgt :
  Translator.template_literal tgt = true ->
  Translator.update_audio native tgt
    (create_audio_filename i B sn cn pn sx native)
  = create_audio_filename i B sn cn pn sx tgt.
Proof.
  intros _. unfold create_audio_filename.
  set (a := format_07d i). set (b := str sn). set (c := str cn).
  set (d := str pn). set (e := str sx).
  assert (Hshape : forall lang,
    a +:+ "_" +:+ B +:+ "_S" +:+ b +:+ "_C" +:+ c +:+ "_P" +:+ d +:+
      "_S" +:+ e +:+ "_" +:+ lang +:+ ".aac"
    = (a +:+ "_" +:+ B +:+ "_S" +:+ b +:+ "_C" +:+ c +:+ "_P" +:+ d +:+
         "_S" +:+ e) +:+ "_" +:+ lang +:+ ".aac").
  { intros lang. by rewrite !append_assoc. }
  rewrite (Hshape native), (Hshape tgt). apply update_audio_suffix.
Qed.

Lemma update_audio_witness :
  Translator.template_literal "es-ES" = true /\
  Translator.update_audio "en-US" "es-ES"
    (create_audio_filename 42 "BOOKM" 1 3 2 5 "en-US")
  = create_audio_filename 42 "BOOKM" 1 3 2 5 "es-ES".
Proof.
  assert (H : Translator.template_literal "es-ES" = true) by reflexivity.
  split; [exact H |].
  exact (update_audio_of_created_name 42 "BOOKM" 1 3 2 5 "en-US" "es-ES" H).
Defined.

(** *** Title case *)

Lemma lower_char_idempotent c : lower_char (lower_char c) = lower_char c.
Proof. by destruct c as [[] [] [] [] [] [] [] []]. Qed.

Lemma lower_upper_char c : lower_char (upper_char c) = lower_char c.
Proof. by destruct c as [[] [] [] [] [] [] [] []]. Qed.

Lemma upper_char_idempotent c : upper_char (upper_char c) = upper_char c.
Proof. by destruct c as [[] [] [] [] [] [] [] []]. Qed.

Lemma isspace_lower_char c : isspace (lower_char c) = isspace c.
Proof. by destruct c as [[] [] [] [] [] [] [] []]. Qed.

Lemma isspace_upper_char c : isspace (upper_char c) = isspace c.
Proof. by destruct c as [[] [] [] [] [] [] [] []]. Qed.

Lemma lower_idempotent w : lower (lower w) = lower w.
Proof.
  induction w as [|c w IH]; [done |]. cbn. by rewrite lower_char_idempotent, IH.
Qed.

Lemma lower_capitalize w : lower (capitalize w) = lower w.
Proof.
  destruct w as [|c w]; [done |]. cbn.
  by rewrite lower_upper_char, lower_idempotent.
Qed.

Lemma capitalize_idempotent w : capitalize (capitalize w) = capitalize w.
Proof.
  destruct w as [|c w]; [done |]. cbn.
  by rewrite upper_char_idempotent, lower_idempotent.
Qed.

Lemma title_words_idempotent ws : forall i,
  title_words i (title_words i ws) = title_words i ws.
Proof.
  induction ws as [|w ws IH]; intros i; [done |].
  cbn [title_words]. rewrite IH. f_equal.
  destruct (negb (bool_decide (lower w ∈ exceptions)) || (i =? 0)) eqn:E.
  - by rewrite lower_capitalize, E, capitalize_idempotent.
  - by rewrite lower_idempotent, E.
Qed.

Lemma no_space_lower w : no_space (lower w) = no_space w.
Proof.
  induction w as [|c w IH]; [done |]. cbn. by rewrite isspace_lower_char, IH.
Qed.

Lemma word_ok_lower w : word_ok w -> word_ok (lower w).
Proof.
  intros [Ht Hs]. split; [by destruct w | by rewrite no_space_lower].
Qed.

Lemma word_ok_capitalize w : word_ok w -> word_ok (capitalize w).
Proof.
  intros [Ht Hs]. destruct w as [|c w]; [done |]. split; [done |].
  cbn in *. by rewrite isspace_upper_char, no_space_lower.
Qed.

Lemma title_words_ok ws : forall i,
  Forall word_ok ws -> Forall word_ok (title_words i ws).
Proof.
  induction ws as [|w ws IH]; intros i H; [constructor |].
  apply Forall_cons in H as [Hw H]. cbn [title_words]. constructor; [| by apply IH].
  destruct (_ || _); [by apply word_ok_capitalize | by apply word_ok_lower].
Qed.

Lemma no_space_snoc acc c :
  no_space acc = true -> isspace c = false -> no_space (snoc acc c) = true.
Proof.
  intros Ha Hc. unfold snoc. induction acc as [|a acc IH].
  - change ("" +:+ String c "") with (String c ""). cbn [no_space]. by rewrite Hc.
  - rewrite append_cons. cbn [no_space] in *.
    apply andb_prop in Ha as [H1 H2]. by rewrite H1, IH.
Qed.

Lemma truthy_snoc acc c : truthy (snoc acc c) = true.
Proof. by destruct acc. Qed.

Lemma split_go_ok s : forall acc,
  no_space acc = true -> Forall word_ok (split_go acc s).
Proof.
  induction s as [|c s IH]; intros acc Ha; cbn [split_go].
  - destruct (truthy acc) eqn:Ht; [| constructor].
    constructor; [by split | constructor].
  - destruct (isspace c) eqn:Hc.
    + destruct (truthy acc) eqn:Ht; [| by apply IH].
      constructor; [by split | by apply IH].
    + apply IH. by apply no_space_snoc.
Qed.

Lemma split_go_word w : forall acc s,
  no_space w = true -> split_go acc (w +:+ s) = split_go (acc +:+ w) s.
Proof.
  induction w as [|c w IH]; intros acc s Hw.
  - by rewrite append_empty_r.
  - cbn [no_space] in Hw. apply andb_prop in Hw as [Hc Hw].
    apply negb_true_iff in Hc.
    rewrite append_cons. cbn [split_go]. rewrite Hc, (IH _ _ Hw).
    unfold snoc. by rewrite append_assoc.
Qed.

Lemma split_go_spaces tr : forall acc,
  lstrip tr = "" -> split_go acc tr = if truthy acc then [acc] else [].
Proof.
  induction tr as [|c tr IH]; intros acc H; [done |].
  cbn [lstrip] in H. cbn [split_go].
  destruct (isspace c); [| done].
  rewrite (IH "" H). by destruct (truthy acc).
Qed.

Lemma split_join ws tr :
  Forall word_ok ws -> lstrip tr = "" ->
  split (join " " ws +:+ tr) = ws.
Proof.
  intros Hws Htr. unfold split. induction Hws as [|w ws [Ht Hs] Hws IH].
  - change (join " " [] +:+ tr) with tr. by rewrite (split_go_spaces tr "" Htr).
  - destruct ws as [|w2 ws].
    + cbn [join]. rewrite (split_go_word w "" tr Hs).
      change ("" +:+ w) with w. by rewrite (split_go_spaces tr w Htr), Ht.
    + change (join " " (w :: w2 :: ws)) with (w +:+ " " +:+ join " " (w2 :: ws)).
      rewrite !append_assoc. rewrite (split_go_word w "" _ Hs).
      change ("" +:+ w) with w.
      change (" " +:+ join " " (w2 :: ws) +:+ tr)
        with (String " " (join " " (w2 :: ws) +:+ tr)).
      cbn [split_go isspace]. by rewrite Ht, IH.
Qed.

Lemma title_case_words t :
  Forall word_ok (title_words 0 (split t)).
Proof. apply title_words_ok, split_go_ok. done. Qed.

(** Title case applied to an ASCII title in title case changes nothing.
    (Outside the ASCII range Python's case mappings do not compose in this
    way: a dotless i is capitalised to an I, which is lower-cased to an
    i.) *)
Theorem title_case_idempotent t :
  isascii t = true -> title_case (title_case t) = title_case t.
Proof.
  intros _. unfold title_case at 1 2.
  rewrite <- (append_empty_r (join " " (title_words 0 (split t)))) at 1.
  rewrite split_join; [| apply title_case_words | done].
  by rewrite title_words_idempotent.
Qed.

Lemma title_case_witness :
  isascii "the LORD of the rings" = true /\
  title_case "the LORD of the rings" = "The Lord of the Rings" /\
  title_case (title_case "the LORD of the rings")
  = title_case "the LORD of the rings".
Proof.
  assert (H : isascii "the LORD of the rings" = true) by reflexivity.
  split; [exact H |]. split; [reflexivity |].
  exact (title_case_idempotent "the LORD of the rings" H).
Defined.

Lemma split_go_lstrip s : split_go "" (lstrip s) = split_go "" s.
Proof.
  induction s as [|c s IH]; [done |].
  cbn [lstrip split_go]. destruct (isspace c) eqn:Hc; [exact IH |].
  cbn [split_go]. by rewrite Hc.
Qed.

Lemma split_go_rstrip s : forall acc,
  split_go acc (rstrip s) = split_go acc s.
Proof.
  induction s as [|c s IH]; intros acc; [done |].
  cbn [rstrip]. destruct (rstrip s) as [|d r] eqn:Hr.
  - destruct (isspace c) eqn:Hc.
    + cbn [split_go]. rewrite Hc, <- !IH. cbn. by destruct (truthy acc).
    + cbn [split_go]. rewrite Hc, <- !IH. done.
  - cbn [split_go]. destruct (isspace c) eqn:Hc; by rewrite <- !IH.
Qed.

Lemma split_strip s : split (strip s) = split s.
Proof. unfold split, strip. by rewrite split_go_rstrip, split_go_lstrip. Qed.

Lemma one_line_word w : no_space w = true -> one_line w = true.
Proof.
  induction w as [|c w IH]; [done |]. cbn. intros H.
  apply andb_prop in H as [Hc Hw]. rewrite (IH Hw).
  by destruct c as [[] [] [] [] [] [] [] []].
Qed.

Lemma one_line_append a b :
  one_line (a +:+ b) = one_line a && one_line b.
Proof.
  induction a as [|c a IH]; [done |].
  rewrite append_cons. cbn [one_line]. rewrite IH. by rewrite andb_assoc.
Qed.

Lemma one_line_join ws :
  Forall word_ok ws -> one_line (join " " ws) = true.
Proof.
  intros H. induction H as [|w ws [_ Hs] Hws IH]; [done |].
  destruct ws as [|w2 ws]; [by apply one_line_word |].
  change (join " " (w :: w2 :: ws)) with (w +:+ " " +:+ join " " (w2 :: ws)).
  rewrite !one_line_append, IH, (one_line_word w Hs). done.
Qed.

Lemma readlines_go_first a : forall acc rest,
  one_line a = true ->
  readlines_go acc (a +:+ String "010" rest)
  = (acc +:+ a +:+ String "010" "") :: readlines_go "" rest.
Proof.
  induction a as [|c a IH]; intros acc rest Ha.
  - change ("" +:+ String "010" rest) with (String "010" rest).
    cbn [readlines_go]. done.
  - cbn [one_line] in Ha. apply andb_prop in Ha as [Hc Ha].
    apply negb_true_iff in Hc.
    rewrite append_cons. cbn [readlines_go]. rewrite Hc, (IH _ _ Ha).
    unfold snoc. by rewrite !append_assoc.
Qed.

(** The title of the record the engine makes of a chapter unit with an
    ASCII title is the title line the extractor wrote into the unit. *)
Theorem chapter_title_of_extracted_unit nlp_sents uuid4 name u L B sn st :
  isascii (Extractor.unit_title u) = true ->
  exists c st',
    process_chapter_file nlp_sents uuid4 name (Some (Extractor.unit_text u))
      L B sn st = (Some c, st') /\
    chapterTitle c = Extractor.title_case (Extractor.unit_title u).
Proof.
  intros _. unfold process_chapter_file, Extractor.unit_text.
  set (T := Extractor.title_case (Extractor.unit_title u)).
  set (body := strip (join Extractor.LF (Extractor.unit_lines u)) +:+ Extractor.LF).
  assert (Hws : Forall word_ok (title_words 0 (split (Extractor.unit_title u))))
    by apply title_case_words.
  assert (HT : one_line T = true) by (by apply one_line_join).
  assert (Hlines : readlines ((T +:+ Extractor.LF +:+ Extractor.LF) +:+ body)
                   = (T +:+ Extractor.LF) :: readlines (Extractor.LF +:+ body)).
  { unfold readlines, Extractor.LF. rewrite !append_assoc.
    change (String "010" "" +:+ String "010" "" +:+ body)
      with (String "010" (String "010" "" +:+ body)).
    by rewrite (readlines_go_first T "" _ HT). }
  rewrite Hlines.
  destruct (paragraph_loop _ _ _ _ _ _ _ _ _ _ _) as [paras st2].
  eexists _, _. split; [reflexivity |]. cbn [chapterTitle chapter_title_of].
  unfold title_case. rewrite split_strip.
  unfold T, Extractor.title_case, Extractor.LF.
  change (Extractor.title_words 0 (split (Extractor.unit_title u)))
    with (title_words 0 (split (Extractor.unit_title u))).
  rewrite split_join; [| exact Hws | done].
  by rewrite title_words_idempotent.
Qed.

Lemma chapter_title_witness :
  isascii "the second" = true /\
  exists c st',
    process_chapter_file Samples.nlp_sents Samples.uuid4 "chapter1.txt"
      (Some (Extractor.unit_text
               {| Extractor.unit_dir := [];
                  Extractor.unit_file := "chapter1.txt";
                  Extractor.unit_title := "the second";
                  Extractor.unit_lines := ["Its only line."] |}))
      "en-US" "BOOKM" 1 initial_state = (Some c, st') /\
    chapterTitle c = "The Second".
Proof.
  assert (H : isascii "the second" = true) by reflexivity.
  split; [exact H |].
  exact (chapter_title_of_extracted_unit Samples.nlp_sents Samples.uuid4
           "chapter1.txt"
           {| Extractor.unit_dir := [];
              Extractor.unit_file := "chapter1.txt";
              Extractor.unit_title := "the second";
              Extractor.unit_lines := ["Its only line."] |}
           "en-US" "BOOKM" 1 initial_state H).
Defined.

(** *** Audio file names of a run *)

Lemma all_digits_zeros k : all_digits (zeros k) = true.
Proof. induction k as [|k IH]; [done |]. exact IH. Qed.

Lemma int_of_zeros k : int_of 0 (zeros k) = 0.
Proof. induction k as [|k IH]; [done |]. exact IH. Qed.

(** The padded index is a string of digits that [int] reads back. *)
Lemma format_07d_digits n :
  0 <= n -> all_digits (format_07d n) = true /\ int (format_07d n) = n.
Proof.
  intros Hn. destruct (str_digits n Hn) as (Hd & _ & Hi).
  unfold format_07d. destruct (n <? 0) eqn:E; [lia |].
  unfold zfill, int. split.
  - by rewrite all_digits_append, all_digits_zeros, Hd.
  - rewrite int_of_append, int_of_zeros. exact Hi.
Qed.

(** The global index can be read back from an audio file name. *)
Lemma create_audio_filename_index i B sn cn pn sx L :
  0 <= i ->
  int (span_digits (create_audio_filename i B sn cn pn sx L)).1 = i.
Proof.
  intros Hi. destruct (format_07d_digits i Hi) as [Hd Hint].
  unfold create_audio_filename.
  rewrite (span_digits_append (format_07d i) _ Hd) by reflexivity.
  exact Hint.
Qed.

Section Audio.

Variable nlp_sents : string -> list string.
Variable uuid4 : nat -> string.

Lemma chapter_files_loop_audio dflt L B chapter_files : forall st,
  Forall (fun s => exists sn cn pn,
            audioFile s =
            create_audio_filename (globalSentenceIndex s) B sn cn pn
              (sentenceIndex s) L)
    (run_sentences
       (chapter_files_loop nlp_sents uuid4 dflt L B chapter_files [] st).1).
Proof.
  induction chapter_files as [|f fs IH]; intros st; [by constructor |].
  cbn [chapter_files_loop].
  destruct (if dflt then _ else _) as [folder sn].
  destruct (contents f) as [data|] eqn:Ec;
    [| rewrite process_chapter_file_skip by auto; apply IH].
  destruct (decide (data = "")) as [-> | Hne];
    [rewrite process_chapter_file_skip by auto; apply IH |].
  destruct (process_chapter_file_some nlp_sents uuid4 (name f) data L B sn st Hne)
    as (c & st' & -> & _ & _ & _ & _ & _ & Ha & _).
  rewrite chapter_files_loop_acc. cbn zeta. cbn [fst snd app].
  rewrite run_sentences_cons. cbn [snd]. apply Forall_app. split; [| apply IH].
  unfold chapter_sentences. apply Forall_concat, Forall_fmap.
  eapply Forall_impl; [exact Ha |].
  intros p Hp. cbn. eapply Forall_impl; [exact Hp |].
  intros s Hs. eexists _, _, _. exact Hs.
Qed.

Lemma audio_files_distinct (ss : list sentence_dict) B L n :
  map globalSentenceIndex ss = seqZ 1 n ->
  Forall (fun s => exists sn cn pn,
            audioFile s =
            create_audio_filename (globalSentenceIndex s) B sn cn pn
              (sentenceIndex s) L) ss ->
  NoDup (map audioFile ss).
Proof.
  intros Hidx Ha.
  assert (Hpos : Forall (fun s => 0 <= globalSentenceIndex s) ss).
  { apply Forall_forall. intros s Hs.
    assert (Hin : globalSentenceIndex s ∈ seqZ 1 n).
    { rewrite <- Hidx. by apply list_elem_of_fmap_2. }
    apply elem_of_seqZ in Hin. lia. }
  apply (NoDup_fmap_1 (fun a => int (span_digits a).1)).
  rewrite <- list_fmap_compose.
  replace ((fun a => int (span_digits a).1) ∘ audioFile <$> ss)
    with (map globalSentenceIndex ss).
  { rewrite Hidx. apply NoDup_seqZ. }
  apply Forall_fmap_ext_1.
  rewrite Forall_forall in Ha, Hpos. apply Forall_forall. intros s Hs.
  destruct (Ha s Hs) as (sn & cn & pn & Hf). cbn. rewrite Hf.
  symmetry. apply create_audio_filename_index. by apply Hpos.
Qed.

(** No two sentence records of a run name the same audio file: the names
    start with the padded global index, which differs from record to
    record. *)
Theorem audio_files_of_a_run_distinct base_input_dir L B :
  NoDup (map audioFile
    (run_sentences
       (process_all_chapter_files nlp_sents uuid4 base_input_dir L B).1)).
Proof.
  unfold process_all_chapter_files.
  eapply audio_files_distinct.
  - apply (chapter_files_loop_counter nlp_sents uuid4 _ L B _ initial_state).
  - apply chapter_files_loop_audio.
Qed.

End Audio.

(** *** Paragraph blocks *)

Lemma re_split_go_not_nil s : forall skip cur, re_split_go skip cur s <> [].
Proof.
  induction s as [|c s IH]; intros skip cur; [done |].
  cbn [re_split_go]. destruct skip as [|k]; [| apply IH].
  destruct (c =? "010")%char; [| apply IH].
  destruct (gap_length s); [done | apply IH].
Qed.

Lemma rstrip_tail c s : rstrip (String c s) = String c s -> rstrip s = s.
Proof.
  cbn [rstrip]. destruct (rstrip s) as [|d r] eqn:E.
  - destruct (isspace c); [done |]. intros H. by injection H as <-.
  - intros H. by injection H as <-.
Qed.

Lemma rstrip_space_nonempty c s :
  isspace c = true -> rstrip (String c s) <> "" -> rstrip s <> "".
Proof.
  intros Hc. cbn [rstrip]. rewrite Hc. by destruct (rstrip s).
Qed.

(** The match of the gap depends on the white space at the start only. *)
Lemma gap_length_append s t :
  rstrip s <> "" -> gap_length (s +:+ t) = gap_length s.
Proof.
  induction s as [|c s IH]; [done |]. intros Hs.
  rewrite append_cons. cbn [gap_length].
  destruct (isspace c) eqn:Hc; [| done].
  by rewrite (IH (rstrip_space_nonempty c s Hc Hs)).
Qed.

Lemma gap_length_nonspace c t : isspace c = false -> gap_length (String c t) = None.
Proof. intros H. cbn [gap_length]. by rewrite H. Qed.

Lemma re_split_go_block b c t : forall cur x,
  isspace c = false ->
  rstrip b = b ->
  re_split_go 0 cur b = [x] ->
  re_split_go 0 cur (b +:+ String "010" (String "010" (String c t)))
  = x :: re_split_go 0 "" (String c t).
Proof.
  induction b as [|d b IH]; intros cur x Hc Hb Hx.
  - cbn in Hx. injection Hx as <-.
    change ("" +:+ String "010" (String "010" (String c t)))
      with (String "010" (String "010" (String c t))).
    cbn [re_split_go]. change ("010" =? "010")%char with true. cbv iota.
    assert (Hg : gap_length (String "010" (String c t)) = Some 1%nat).
    { cbn [gap_length]. change (isspace "010") with true. cbv iota.
      change (gap_length (String c t)) with
        (if isspace c then match gap_length t with
                           | Some n => Some (S n)
                           | None => if (c =? "010")%char then Some 1%nat else None
                           end else None).
      by rewrite Hc. }
    rewrite Hg. reflexivity.
  - rewrite append_cons. cbn [re_split_go] in *.
    pose proof (rstrip_tail d b Hb) as Hb'.
    destruct (d =? "010")%char eqn:Hd.
    + destruct (gap_length b) as [n|] eqn:Hg.
      { injection Hx as _ Hx. by apply re_split_go_not_nil in Hx. }
      assert (Hne : rstrip b <> "").
      { intros E. apply Ascii.eqb_eq in Hd. subst d.
        cbn [rstrip] in Hb. rewrite E in Hb. done. }
      rewrite gap_length_append by done. rewrite Hg. by apply IH.
    + by apply IH.
Qed.

(** A block that is not empty, has no white space at either end and holds
    no blank line. *)
Lemma block_head b :
  b <> "" -> strip b = b ->
  rstrip b = b /\ exists c t, b = String c t /\ isspace c = false.
Proof.
  intros Hne Hb. split.
  - rewrite <- Hb at 2. unfold strip. rewrite <- Hb at 1. unfold strip.
    apply rstrip_idempotent.
  - destruct (strip_head b) as [E | (c & t & E & Hc)]; rewrite Hb in E;
      [done | by exists c, t].
Qed.

Lemma join_blocks_head b bs :
  Forall (fun b => b <> "" /\ strip b = b /\ re_split_blank b = [b]) (b :: bs) ->
  exists c t, join (String "010" (String "010" "")) (b :: bs) = String c t /\
              isspace c = false.
Proof.
  intros H. apply Forall_cons in H as [(Hne & Hb & _) _].
  destruct (block_head b Hne Hb) as (_ & c & t & -> & Hc).
  destruct bs as [|b2 bs]; [by exists c, t |].
  change (join _ (String c t :: b2 :: bs))
    with (String c t +:+ String "010" (String "010" "") +:+
          join (String "010" (String "010" "")) (b2 :: bs)).
  rewrite append_cons. by eexists _, _.
Qed.

Lemma re_split_blank_join bs :
  bs <> [] ->
  Forall (fun b => b <> "" /\ strip b = b /\ re_split_blank b = [b]) bs ->
  re_split_blank (join (String "010" (String "010" "")) bs) = bs.
Proof.
  induction bs as [|b bs IH]; [done |]. intros _ H.
  destruct bs as [|b2 bs].
  { apply Forall_cons in H as [(_ & _ & H) _]. exact H. }
  pose proof H as H0. apply Forall_cons in H as [(Hne & Hb & Hs) Hrest].
  destruct (join_blocks_head b2 bs Hrest) as (c & t & Hj & Hc).
  destruct (block_head b Hne Hb) as (Hr & _).
  change (join _ (b :: b2 :: bs))
    with (b +:+ String "010" (String "010" "") +:+
          join (String "010" (String "010" "")) (b2 :: bs)).
  rewrite Hj. unfold re_split_blank in *.
  change (String "010" (String "010" "") +:+ String c t)
    with (String "010" (String "010" (String c t))).
  rewrite (re_split_go_block b c t "" b Hc Hr Hs).
  rewrite <- Hj. f_equal. by apply IH.
Qed.

Lemma strip_join_blocks bs :
  Forall (fun b => b <> "" /\ strip b = b /\ re_split_blank b = [b]) bs ->
  strip (join (String "010" (String "010" "")) bs)
  = join (String "010" (String "010" "")) bs.
Proof.
  intros H. destruct bs as [|b bs]; [done |].
  destruct (join_blocks_head b bs H) as (c & t & Hj & Hc).
  unfold strip. rewrite Hj, (lstrip_nonspace c t Hc), <- Hj. clear c t Hj Hc.
  induction bs as [|b2 bs IH] in b, H |- *.
  - apply Forall_cons in H as [(Hne & Hb & _) _].
    by destruct (block_head b Hne Hb) as (Hr & _).
  - apply Forall_cons in H as [_ H].
    change (join _ (b :: b2 :: bs))
      with (b +:+ String "010" (String "010" "") +:+
            join (String "010" (String "010" "")) (b2 :: bs)).
    specialize (IH b2 H).
    destruct (join_blocks_head b2 bs H) as (c & t & Hj & Hc).
    rewrite <- append_assoc. rewrite rstrip_append; rewrite IH; [done |].
    by rewrite Hj.
Qed.

(** Blocks joined by a blank line are the paragraphs read back: when no
    block is empty, has white space at an end or holds a blank line of its
    own, [parse_paragraphs] returns the blocks. *)
Theorem parse_paragraphs_of_joined_blocks bs :
  Forall (fun b => b <> "" /\ strip b = b /\ re_split_blank b = [b]) bs ->
  parse_paragraphs (join (String "010" (String "010" "")) bs) = bs.
Proof.
  intros H. unfold parse_paragraphs. rewrite (strip_join_blocks bs H).
  destruct bs as [|b bs]; [done |].
  rewrite re_split_blank_join by done.
  induction H as [|x xs (Hne & Hb & _) _ IH]; [done |].
  cbn [map]. rewrite Hb. rewrite filter_cons_True by (by destruct x).
  by rewrite IH.
Qed.

Lemma parse_paragraphs_witness :
  parse_paragraphs
    (join (String "010" (String "010" ""))
       ["<!-- REF: Gen 1:1 -->" +:+ String "010" "In the beginning."; "The end."])
  = ["<!-- REF: Gen 1:1 -->" +:+ String "010" "In the beginning."; "The end."].
Proof.
  apply parse_paragraphs_of_joined_blocks.
  repeat constructor; done.
Defined.

(** No paragraph is empty, and none has white space at either end. *)
Theorem parse_paragraphs_stripped_nonempty text :
  Forall (fun p => p <> "" /\ strip p = p) (parse_paragraphs text).
Proof.
  unfold parse_paragraphs. apply Forall_forall. intros p Hp.
  apply list_elem_of_filter in Hp as [Ht Hp].
  apply list_elem_of_fmap in Hp as (q & -> & _).
  split; [by destruct (strip q) | apply strip_idempotent].
Qed.

End ParserMore.

(** ** The chapter extraction *)

Module ExtractorMore.
Import Py Extractor ExtractorFacts TranslatorFacts.

(** *** Sanitised names *)

(** [sanitize_filename] leaves none of the characters it removes, and
    changes nothing in a name that has none of them. *)
Theorem sanitize_filename_valid name :
  valid_name (sanitize_filename name) = true /\
  (valid_name name = true -> sanitize_filename name = name).
Proof.
  split.
  - induction name as [|c s IH]; [done |].
    cbn [sanitize_filename]. destruct (invalid_char c) eqn:Hc; [exact IH |].
    cbn [valid_name]. by rewrite Hc, IH.
  - induction name as [|c s IH]; [done |].
    cbn [valid_name sanitize_filename]. intros H.
    apply andb_prop in H as [Hc Hs]. apply negb_true_iff in Hc.
    rewrite Hc. by rewrite (IH Hs).
Qed.

Lemma sanitize_filename_witness :
  valid_name "Part One" = true /\ sanitize_filename "Part One" = "Part One".
Proof.
  split; [reflexivity |].
  by apply (proj2 (sanitize_filename_valid "Part One")).
Defined.

(** *** The returned flag *)

Lemma step_subbook_detected st line :
  subbook_detected (step st line) =
  subbook_detected st || is_subbook_marker line.
Proof.
  unfold step, is_subbook_marker.
  destruct (classify line) as [t | t |].
  - destruct (in_progress st); [destruct (write_current_chapter _ _ _ _ _) |];
      cbn; by rewrite orb_true_r.
  - destruct (in_progress st); [destruct (write_current_chapter _ _ _ _ _) |];
      cbn; by rewrite orb_false_r.
  - destruct (current_chapter st); cbn; by rewrite orb_false_r.
Qed.

Lemma foldl_step_subbook_detected lines : forall st,
  subbook_detected (foldl step st lines) =
  subbook_detected st || existsb is_subbook_marker lines.
Proof.
  induction lines as [|l lines IH]; intros st; cbn [foldl existsb].
  - by rewrite orb_false_r.
  - by rewrite IH, step_subbook_detected, orb_assoc.
Qed.

(** The extractor returns true exactly when some line of the text is a
    subbook marker. *)
Theorem subbook_detected_iff_marker lines fs0 :
  (extract_lines lines fs0).1.1 = existsb is_subbook_marker lines.
Proof.
  unfold extract_lines, finish.
  pose proof (foldl_step_subbook_detected lines (initial fs0)) as H.
  cbn [initial subbook_detected orb] in H.
  destruct (in_progress _); [destruct (write_current_chapter _ _ _ _ _) |];
    exact H.
Qed.

(** *** Chapter numbers *)

Lemma append_same_length a : forall b c d,
  String.length a = String.length b -> a +:+ c = b +:+ d -> a = b.
Proof.
  induction a as [|x a IH]; intros [|y b] c d Hlen H; try done.
  rewrite !append_cons in H. injection H as -> H.
  cbn in Hlen. f_equal. eapply IH; [| exact H]. lia.
Qed.

Lemma append_inj_r a b c : a +:+ c = b +:+ c -> a = b.
Proof.
  intros H. eapply append_same_length; [| exact H].
  apply (f_equal String.length) in H. rewrite !length_append in H. lia.
Qed.

Lemma chapter_file_name_inj a b :
  chapter_file_name a = chapter_file_name b -> a = b.
Proof.
  unfold chapter_file_name. intros H.
  apply String.app_inj in H. apply append_inj_r in H.
  by apply pretty_Z_inj in H.
Qed.

Lemma endswith_append suffix a : endswith suffix (a +:+ suffix) = true.
Proof.
  induction a as [|c a IH].
  - change ("" +:+ suffix) with suffix.
    destruct suffix; cbn [endswith]; by rewrite String.eqb_refl.
  - rewrite append_cons. cbn [endswith]. rewrite IH. apply orb_true_r.
Qed.

Lemma glob_chapter_file_name n : glob_chapter_txt (chapter_file_name n) = true.
Proof.
  unfold glob_chapter_txt, chapter_file_name.
  rewrite literal_append. apply endswith_append.
Qed.

Lemma filter_all {A} (P : A -> Prop) `{forall x, Decision (P x)} (l : list A) :
  Forall P l -> filter P l = l.
Proof.
  induction 1 as [|x l Hx Hl IH]; [done |].
  by rewrite filter_cons_True, IH.
Qed.

Lemma units_in_app dir us vs :
  units_in dir (us ++ vs) = units_in dir us ++ units_in dir vs.
Proof. apply filter_app. Qed.

(** In a numbered list of units every file name is a chapter file name
    with a number up to the count of its directory. *)
Lemma numbered_name units u :
  (forall dir,
     map unit_file (units_in dir units) =
     map chapter_file_name (seqZ 1 (Z.of_nat (length (units_in dir units))))) ->
  u ∈ units ->
  exists k, unit_file u = chapter_file_name k /\
            1 <= k <= Z.of_nat (length (units_in (unit_dir u) units)).
Proof.
  intros Hnum Hu.
  assert (Hin : u ∈ units_in (unit_dir u) units)
    by (by apply list_elem_of_filter).
  apply (list_elem_of_fmap_2 unit_file) in Hin. rewrite Hnum in Hin.
  apply list_elem_of_fmap in Hin as (k & Hk & Hin).
  apply elem_of_seqZ in Hin. exists k. split; [exact Hk | lia].
Qed.

Lemma count_chapter_files dir units :
  (forall u, u ∈ units -> exists k, unit_file u = chapter_file_name k) ->
  length (filter (fun f => bool_decide (file_dir f = dir)
                           && glob_chapter_txt (file_name f))
                 (map file_of_unit units))
  = length (units_in dir units).
Proof.
  induction units as [|u units IH]; intros Hnames; [done |].
  cbn [map]. unfold units_in in *.
  destruct (Hnames u) as [k Hk]; [by left |].
  assert (IH' := IH (fun v Hv => Hnames v (list_elem_of_further _ _ _ Hv))).
  destruct (decide (unit_dir u = dir)) as [Hd | Hd].
  - rewrite filter_cons_True.
    2: { cbn [file_of_unit file_dir file_name].
         rewrite Hk, glob_chapter_file_name.
         by rewrite bool_decide_eq_true_2. }
    rewrite (filter_cons_True (fun u => unit_dir u = dir)) by done.
    cbn. by rewrite IH'.
  - rewrite filter_cons_False.
    2: { cbn [file_of_unit file_dir file_name].
         rewrite bool_decide_eq_false_2 by done. cbn. auto. }
    rewrite (filter_cons_False (fun u => unit_dir u = dir)) by done.
    exact IH'.
Qed.

Lemma write_current_chapter_numbered files units dir title lines :
  files = map file_of_unit units ->
  (forall d,
     map unit_file (units_in d units) =
     map chapter_file_name (seqZ 1 (Z.of_nat (length (units_in d units))))) ->
  let r := write_current_chapter files units dir title lines in
  r.1 = map file_of_unit r.2 /\
  (forall d,
     map unit_file (units_in d r.2) =
     map chapter_file_name (seqZ 1 (Z.of_nat (length (units_in d r.2))))).
Proof.
  intros Hfs Hnum. unfold write_current_chapter.
  destruct (negb (truthy title) || bool_decide (lines = [])); [by split |].
  cbn zeta. cbn [fst snd].
  set (n := length (units_in dir units)).
  assert (Hcount : get_chapter_number files dir = Z.of_nat n + 1).
  { unfold get_chapter_number. rewrite Hfs, count_chapter_files; [done |].
    intros u Hu. destruct (numbered_name units u Hnum Hu) as (k & Hk & _).
    by exists k. }
  rewrite Hcount.
  fold (chapter_file_name (Z.of_nat n + 1)).
  set (u := {| unit_dir := dir; unit_file := chapter_file_name (Z.of_nat n + 1);
               unit_title := title; unit_lines := lines |}).
  split.
  - unfold write_file. rewrite map_app. cbn [map]. f_equal.
    rewrite Hfs. apply filter_all. apply Forall_forall.
    intros f Hf. apply list_elem_of_fmap in Hf as (v & -> & Hv).
    unfold same_path. cbn [file_of_unit file_dir file_name].
    destruct (numbered_name units v Hnum Hv) as (k & Hk & Hrange).
    case_bool_decide as Hd; [| done]. cbn [andb negb].
    destruct (String.eqb_spec (unit_file v) (chapter_file_name (Z.of_nat n + 1)))
      as [Heq |]; [| done].
    rewrite Hk in Heq. apply chapter_file_name_inj in Heq.
    rewrite Hd in Hrange. fold n in Hrange. lia.
  - intros d. rewrite units_in_app.
    destruct (decide (dir = d)) as [<- | Hd].
    + unfold units_in at 2 4. rewrite filter_cons_True by done.
      rewrite filter_nil. fold n.
      rewrite map_app, length_app, Hnum. fold n. cbn [length map unit_file].
      replace (Z.of_nat (n + 1)) with (Z.of_nat n + 1) by lia.
      rewrite seqZ_app by lia. rewrite map_app. f_equal.
      replace (1 + Z.of_nat n) with (Z.of_nat n + 1) by lia. done.
    + unfold units_in at 2 4. rewrite filter_cons_False by done.
      rewrite filter_nil, !app_nil_r. apply Hnum.
Qed.

Lemma step_numbered st line : numbered st -> numbered (step st line).
Proof.
  intros [Hfs Hnum]. unfold step, numbered.
  destruct (classify line) as [t | t |].
  - destruct (in_progress st) as [title|]; [| by split].
    pose proof (write_current_chapter_numbered (fs st) (written st)
                  (current_output_dir st) title (chapter_lines st) Hfs Hnum) as H.
    by destruct (write_current_chapter _ _ _ _ _).
  - destruct (in_progress st) as [title|]; [| by split].
    pose proof (write_current_chapter_numbered (fs st) (written st)
                  (current_output_dir st) title (chapter_lines st) Hfs Hnum) as H.
    by destruct (write_current_chapter _ _ _ _ _).
  - destruct (current_chapter st); by split.
Qed.

(** Into an empty output directory every unit is written to a file of its
    own, and the units of each directory are named [chapter1.txt],
    [chapter2.txt], ... in the order they are written. *)
Theorem chapters_numbered_in_order lines :
  let r := extract_lines lines [] in
  r.1.2 = map file_of_unit r.2 /\
  forall dir,
    map unit_file (units_in dir r.2) =
    map chapter_file_name (seqZ 1 (Z.of_nat (length (units_in dir r.2)))).
Proof.
  cbn zeta. unfold extract_lines, finish.
  assert (Hinv : numbered (foldl step (initial []) lines)).
  { generalize (initial []) (conj eq_refl (fun _ => eq_refl) : numbered (initial [])).
    induction lines as [|l lines IH]; intros st Hst; [exact Hst |].
    cbn. apply IH. by apply step_numbered. }
  destruct Hinv as [Hfs Hnum].
  destruct (in_progress _) as [title|]; [| by split].
  pose proof (write_current_chapter_numbered _ _
                (current_output_dir (foldl step (initial []) lines)) title
                (chapter_lines (foldl step (initial []) lines)) Hfs Hnum) as H.
  by destruct (write_current_chapter _ _ _ _ _).
Qed.

(** *** What a unit holds *)

(** Every unit written has a title, and each of its lines is a line of the
    text that is neither a chapter marker nor a subbook marker: the markers
    are consumed, never copied into a chapter. *)
Theorem units_hold_no_marker_line lines fs0 :
  Forall (fun u =>
            unit_title u <> "" /\
            Forall (fun l => l ∈ lines /\ is_chapter_marker l = false /\
                             is_subbook_marker l = false)
                   (unit_lines u))
         (extract_lines lines fs0).2.
Proof.
  pose proof (extract_lines_ok lines fs0) as Hok.
  eapply Forall_impl; [exact Hok |].
  intros u (_ & Ht & Hu). split; [exact Ht |].
  eapply Forall_impl; [exact Hu |].
  intros l [Hin Hbody]. unfold is_chapter_marker, is_subbook_marker.
  by rewrite Hbody.
Qed.

End ExtractorMore.

(** ** The translator *)

Module TranslatorMore.
Import Py Translator TranslatorFacts.

(** *** The target languages of a call *)

(** The target languages passed on never include the native language or an
    empty code, and each is a stripped piece of the argument. *)
Theorem target_language_codes_exclude_native native_language target_languages :
  let codes := target_language_codes_of native_language target_languages in
  (strip native_language ∉ codes) /\
  ("" ∉ codes) /\
  Forall (fun lang => lang ∈ map strip (split_comma target_languages)) codes.
Proof.
  cbn zeta. unfold target_language_codes_of. split; [| split].
  - intros H. apply list_elem_of_filter in H as [H _]. done.
  - intros H. apply list_elem_of_filter in H as [_ H].
    apply list_elem_of_filter in H as [H _]. done.
  - apply Forall_forall. intros lang H.
    apply list_elem_of_filter in H as [_ H].
    by apply list_elem_of_filter in H as [_ H].
Qed.

Example target_language_codes_sample :
  target_language_codes_of " en-US " "es-ES, fr-FR,,en-US , " = ["es-ES"; "fr-FR"].
Proof. by vm_compute. Qed.

(** *** The substitution of the language code *)

(** With the native language as target the substitution changes no file
    name.  The code is free of backslashes, so that the replacement is
    taken literally. *)
Theorem update_audio_same_language native audio_file :
  template_literal native = true ->
  update_audio native native audio_file = audio_file.
Proof.
  intros _. unfold update_audio. set (pat := "_" +:+ native +:+ ".aac").
  induction audio_file as [|c s IH].
  - cbn [re_sub_end]. destruct (match_at_end pat "") as [e|] eqn:Hm; [| done].
    unfold match_at_end in Hm.
    destruct (literal pat "") as [e'|] eqn:Hl; [| done].
    destruct (at_end e'); [| done]. injection Hm as ->.
    apply literal_spec in Hl. by rewrite <- Hl.
  - cbn [re_sub_end]. destruct (match_at_end pat (String c s)) as [e|] eqn:Hm.
    + unfold match_at_end in Hm.
      destruct (literal pat (String c s)) as [e'|] eqn:Hl; [| done].
      destruct (at_end e'); [| done]. injection Hm as ->.
      apply literal_spec in Hl. by rewrite <- Hl.
    + by rewrite IH.
Qed.

Lemma update_audio_same_language_witness :
  update_audio "en-US" "en-US" "0000042_BOOKM_S1_C3_P2_S5_en-US.aac"
  = "0000042_BOOKM_S1_C3_P2_S5_en-US.aac".
Proof. apply update_audio_same_language. reflexivity. Defined.

Section Service.

Variable client : string -> string -> option string.
Variable language_map : string -> option string.

(** *** What translation keeps *)

Lemma translated_document_identity native tgt c :
  document_identity (translated_document client language_map native tgt c)
  = document_identity c.
Proof.
  unfold document_identity, translated_document. cbn.
  f_equal. rewrite map_map. apply map_ext. intros p. cbn. f_equal.
  rewrite map_map. apply map_ext. intros s.
  unfold translated_sentence, translate_sentence, sentence_identity.
  destruct (negb (truthy (strip (text s)))); [done |].
  destruct (language_map tgt) as [name|]; [| done].
  by destruct (negb (truthy name)).
Qed.

(** Every translated document has the identifiers, the numbers, the title,
    the references and the paragraph and sentence structure of the native
    document: translation changes the language, the texts and the audio
    file names only. *)
Theorem translation_keeps_identity file native targets h :
  Forall (fun t => template_literal t = true) targets ->
  exists h' native_content out,
    process_json_file client language_map file native targets h
      = Some (h', native_content, out) /\
    Forall (fun t => document_identity (dumped t) = document_identity file) out.
Proof.
  intros _.
  destruct (process_json_file_spec client language_map file native targets h)
    as (h' & native_content & out & np & ns & Hrun & _ & _ & _ & Hout & _).
  exists h', native_content, out. split; [exact Hrun |].
  eapply Forall_impl; [exact Hout |].
  intros t (_ & _ & _ & -> & _). apply translated_document_identity.
Qed.

(** *** Languages the map does not know, and failed translations *)

Lemma chapter_sentences_translated native tgt c :
  chapter_sentences (translated_document client language_map native tgt c)
  = map (translated_sentence client language_map native tgt)
        (chapter_sentences c).
Proof.
  unfold chapter_sentences, translated_document, map_document.
  cbn [paragraphs with_language].
  induction (paragraphs c) as [|p ps IH]; [done |].
  cbn [map concat]. rewrite map_app, <- IH. reflexivity.
Qed.

Lemma translated_document_unknown native tgt c :
  language_map tgt = None ->
  map text (chapter_sentences (translated_document client language_map native tgt c))
  = map text (chapter_sentences c) /\
  map audioFile
      (chapter_sentences (translated_document client language_map native tgt c))
  = map (fun s => update_audio native tgt (audioFile s)) (chapter_sentences c).
Proof.
  intros Hnone. rewrite chapter_sentences_translated, !map_map.
  assert (Hs : forall s,
    translated_sentence client language_map native tgt s
    = set_audioFile (update_audio native tgt (audioFile s)) s).
  { intros s. unfold translated_sentence, translate_sentence. rewrite Hnone.
    by destruct (negb (truthy (strip (text s)))). }
  split; apply map_ext; intros s; by rewrite Hs.
Qed.

(** For a target language the map does not know a record is still
    produced: it carries the target language, every text is left as in the
    native record, and every audio file name has the language code
    substituted. *)
Theorem unknown_target_language_keeps_texts file native targets h :
  Forall (fun t => template_literal t = true) targets ->
  exists h' native_content out,
    process_json_file client language_map file native targets h
      = Some (h', native_content, out) /\
    map target out = targets /\
    Forall (fun t =>
      language_map (target t) = None ->
      language (dumped t) = target t /\
      map text (chapter_sentences (dumped t)) = map text (chapter_sentences file) /\
      map audioFile (chapter_sentences (dumped t)) =
        map (fun s => update_audio native (target t) (audioFile s))
            (chapter_sentences file)) out.
Proof.
  intros _.
  destruct (process_json_file_spec client language_map file native targets h)
    as (h' & native_content & out & np & ns & Hrun & _ & _ & _ & Hout & _ & Ht).
  exists h', native_content, out. split; [exact Hrun |]. split; [exact Ht |].
  eapply Forall_impl; [exact Hout |].
  intros t (_ & _ & _ & -> & _) Hnone. split; [done |].
  by apply translated_document_unknown.
Qed.

(** When the translation service fails on a sentence, for a target
    language to which the map gives a name that is not empty, the sentence
    of the translated record has an empty text; the native text is not
    kept. *)
Theorem failed_translation_leaves_empty_text file native targets h :
  Forall (fun t => template_literal t = true) targets ->
  exists h' native_content out,
    process_json_file client language_map file native targets h
      = Some (h', native_content, out) /\
    Forall (fun t =>
      Forall2 (fun p p' =>
        Forall2 (fun s s' =>
          forall name,
            strip (text s) <> "" ->
            language_map (target t) = Some name ->
            name <> "" ->
            client ("You are a translator. Translate the following text to "
                    +:+ name +:+ ".") (strip (text s)) = None ->
            text s' = "" /\
            audioFile s' =
              update_audio native (target t)
                (update_audio native (target t) (audioFile s)))
          (sentences p) (sentences p'))
        (paragraphs file) (paragraphs (dumped t))) out.
Proof.
  intros _.
  destruct (process_json_file_spec client language_map file native targets h)
    as (h' & native_content & out & np & ns & Hrun & _ & _ & _ & Hout & _).
  exists h', native_content, out. split; [exact Hrun |].
  eapply Forall_impl; [exact Hout |].
  intros t (_ & _ & _ & -> & _). cbn [translated_document map_document paragraphs].
  apply Forall2_fmap_r, Forall_Forall2_diag, Forall_forall. intros p _.
  cbn [map_paragraph sentences compose].
  apply Forall2_fmap_r, Forall_Forall2_diag, Forall_forall. intros s _.
  cbn [compose]. intros name Htext Hname Hne Hfail.
  unfold translated_sentence, translate_sentence, translate_text.
  destruct (truthy (strip (text s))) eqn:Ht.
  - cbn [negb]. rewrite Hname.
    destruct name as [|a rest]; [done |].
    cbn [truthy negb]. rewrite Hfail. done.
  - apply strip_blank_not_truthy in Ht. done.
Qed.

End Service.

Lemma translation_identity_witness :
  Forall (fun t => template_literal t = true) ["es-ES"; "de-DE"] /\
  exists h' native_content out,
    process_json_file Samples.client Samples.language_map
      Samples.native_record "en-US" ["es-ES"; "de-DE"] []
      = Some (h', native_content, out) /\
    Forall (fun t => document_identity (dumped t)
                     = document_identity Samples.native_record) out.
Proof.
  assert (Ht : Forall (fun t => template_literal t = true) ["es-ES"; "de-DE"])
    by (repeat constructor).
  split; [exact Ht |].
  exact (translation_keeps_identity Samples.client Samples.language_map
           Samples.native_record "en-US" ["es-ES"; "de-DE"] [] Ht).
Defined.

Lemma unknown_target_witness :
  Forall (fun t => template_literal t = true) ["de-DE"] /\
  Samples.language_map "de-DE" = None /\
  exists h' native_content out,
    process_json_file Samples.client Samples.language_map
      Samples.native_record "en-US" ["de-DE"] []
      = Some (h', native_content, out) /\
    map target out = ["de-DE"].
Proof.
  assert (Ht : Forall (fun t => template_literal t = true) ["de-DE"])
    by (repeat constructor).
  split; [exact Ht |]. split; [reflexivity |].
  destruct (unknown_target_language_keeps_texts Samples.client
              Samples.language_map Samples.native_record "en-US" ["de-DE"] [] Ht)
    as (h' & native_content & out & Hrun & Htargets & _).
  exists h', native_content, out. auto.
Defined.

Lemma failed_translation_witness :
  Forall (fun t => template_literal t = true) ["es-ES"] /\
  Samples.language_map "es-ES" = Some "Spanish" /\ "Spanish" <> "" /\
  Samples.client
    ("You are a translator. Translate the following text to " +:+ "Spanish" +:+ ".")
    "fail" = None /\
  exists h' native_content out,
    process_json_file Samples.client Samples.language_map
      Samples.native_record "en-US" ["es-ES"] []
      = Some (h', native_content, out).
Proof.
  assert (Ht : Forall (fun t => template_literal t = true) ["es-ES"])
    by (repeat constructor).
  split; [exact Ht |]. split; [reflexivity |]. split; [discriminate |].
  split; [reflexivity |].
  destruct (failed_translation_leaves_empty_text Samples.client
              Samples.language_map Samples.native_record "en-US" ["es-ES"] [] Ht)
    as (h' & native_content & out & Hrun & _).
  exists h', native_content, out. exact Hrun.
Defined.

End TranslatorMore.
